(** * README-to-landing-page extraction engine: model and verified properties

    A shallow embedding of the markdown extraction engine ([parseReadme] and
    its field extractors) together with the properties its specification
    states about it.

    Conventions of the embedding
    - A JavaScript string is the list of its UTF-16 code units ([jstring]);
      [lit] turns a literal of the source into such a list.
    - The parsed markdown tree (mdast) is the inductive type [Node]; the
      depth-first visitor [visit] is the pre-order list of the nodes.
    - A JavaScript exception is the [Throw] case of [Result]. *)

From Stdlib Require Import Strings.String Strings.Ascii.
From Stdlib Require Import NArith ZArith Bool Arith Lia.
From Stdlib Require Import List Permutation.
Import ListNotations.

Set Implicit Arguments.
Set Warnings "-register-all".

(* ================================================================== *)
(** ** JavaScript strings *)
(* ================================================================== *)

Module Js.

Local Open Scope N_scope.

(** A UTF-16 code unit. *)
Definition char16 := N.

Definition jstring := list char16.

Definition lit (s : string) : jstring :=
  List.map N_of_ascii (list_ascii_of_string s).

Fixpoint streq (a b : jstring) : bool :=
  match a, b with
  | [], [] => true
  | x :: a', y :: b' => N.eqb x y && streq a' b'
  | _, _ => false
  end.

Definition inRange (lo hi c : char16) : bool := N.leb lo c && N.leb c hi.

Definition memUnit (c : char16) (l : list char16) : bool := existsb (N.eqb c) l.

(** [\s], and what [trim] strips: WhiteSpace and LineTerminator. *)
Definition isWhite (c : char16) : bool :=
  inRange 9 13 c || memUnit c [32; 160; 5760; 8232; 8233; 8239; 8287; 12288; 65279]
  || inRange 8192 8202 c.

(** What [.] does not match: the line terminators. *)
Definition isLineTerminator (c : char16) : bool := memUnit c [10; 13; 8232; 8233].

Definition isDigit (c : char16) : bool := inRange 48 57 c.
Definition isUpper (c : char16) : bool := inRange 65 90 c.
Definition isLower (c : char16) : bool := inRange 97 122 c.
Definition isAlpha (c : char16) : bool := isUpper c || isLower c.

(** [\w] without the unicode flag. *)
Definition isWord (c : char16) : bool := isAlpha c || isDigit c || N.eqb c 95.

(** [toLowerCase] on one code unit.  The case mapping is modelled on Basic
    Latin and the Latin-1 Supplement; other code units are left as they
    are. *)
Definition lowerUnit (c : char16) : char16 :=
  if isUpper c then c + 32
  else if inRange 192 222 c && negb (N.eqb c 215) then c + 32
  else c.

Definition toLowerCase (s : jstring) : jstring := List.map lowerUnit s.

Fixpoint startsWith (p s : jstring) : bool :=
  match p, s with
  | [], _ => true
  | x :: p', y :: s' => N.eqb x y && startsWith p' s'
  | _ :: _, [] => false
  end.

Fixpoint includes (needle hay : jstring) : bool :=
  startsWith needle hay ||
  match hay with
  | [] => false
  | _ :: hay' => includes needle hay'
  end.

Fixpoint dropWhile (p : char16 -> bool) (s : jstring) : jstring :=
  match s with
  | [] => []
  | c :: s' => if p c then dropWhile p s' else s
  end.

Fixpoint takeWhile (p : char16 -> bool) (s : jstring) : jstring :=
  match s with
  | [] => []
  | c :: s' => if p c then c :: takeWhile p s' else []
  end.

Definition trimStart (s : jstring) : jstring := dropWhile isWhite s.
Definition trimEnd (s : jstring) : jstring := rev (dropWhile isWhite (rev s)).
Definition trim (s : jstring) : jstring := trimEnd (trimStart s).

(** [s.substring(0, n)]. *)
Definition substring0 (n : nat) (s : jstring) : jstring := firstn n s.

(** A string in a boolean position: the empty string is falsy. *)
Definition truthy (s : jstring) : bool :=
  match s with [] => false | _ => true end.

(** [a || b] on strings. *)
Definition orElse (a b : jstring) : jstring := if truthy a then a else b.

(** [parts.join(sep)]. *)
Fixpoint join (sep : jstring) (parts : list jstring) : jstring :=
  match parts with
  | [] => []
  | [p] => p
  | p :: rest => p ++ sep ++ join sep rest
  end.

(** [s.replace(/\s+/g, r)]: every maximal run of white space becomes [r]. *)
Fixpoint replaceWhiteRuns (r : jstring) (inRun : bool) (s : jstring) : jstring :=
  match s with
  | [] => []
  | c :: s' =>
      if isWhite c
      then (if inRun then [] else r) ++ replaceWhiteRuns r true s'
      else c :: replaceWhiteRuns r false s'
  end.

(** [s.replace(/[...]/g, '')] for a character class given as a predicate. *)
Definition removeClass (cls : char16 -> bool) (s : jstring) : jstring :=
  filter (fun c => negb (cls c)) s.

(** ['#'.repeat(n)] and the like. *)
Definition repeatStr (s : jstring) (n : nat) : jstring := concat (repeat s n).

End Js.

Import Js.

Arguments lit _%_string.

(* ================================================================== *)
(** ** Exceptions *)
(* ================================================================== *)

Inductive Error : Type :=
| TypeError     (* a method call on a value that does not have the method *)
| InvalidURL.   (* [new URL(s)] on a string that is not a URL *)

Inductive Result (A : Type) : Type :=
| Ok (a : A)
| Throw (e : Error).

Arguments Ok {A} a.
Arguments Throw {A} e.

Definition bind {A B : Type} (m : Result A) (k : A -> Result B) : Result B :=
  match m with
  | Ok a => k a
  | Throw e => Throw e
  end.

Notation "x <- m ;; k" := (bind m (fun x => k))
  (at level 61, m at next level, right associativity).

(** [l.some(p)] for a predicate that may throw. *)
Fixpoint someR {A : Type} (p : A -> Result bool) (l : list A) : Result bool :=
  match l with
  | [] => Ok false
  | x :: l' => b <- p x ;; if b then Ok true else someR p l'
  end.

(** [l.find(p)] for a predicate that may throw. *)
Fixpoint findR {A : Type} (p : A -> Result bool) (l : list A) : Result (option A) :=
  match l with
  | [] => Ok None
  | x :: l' => b <- p x ;; if b then Ok (Some x) else findR p l'
  end.

(* ================================================================== *)
(** ** The parsed markdown tree *)
(* ================================================================== *)

(** The node types that carry children, with their own fields. *)
Inductive ParentKind : Type :=
| Heading (depth : nat)
| Paragraph
| Blockquote
| ListNode
| ListItem
| LinkNode (url : jstring)
| Strong
| OtherParent.  (* emphasis, delete, table, tableRow, tableCell, ... *)

Inductive Node : Type :=
| Text (value : jstring)
| Image (url : jstring) (alt : option jstring)
| Code (lang : option jstring) (value : jstring)
| OtherLeaf                                  (* inlineCode, break, thematicBreak, html, ... *)
| Parent (kind : ParentKind) (children : list Node).

(** The root node, given by its children ([ast.children]). *)
Definition Root := list Node.

(** The nodes below (and including) a node, in the order the depth-first
    visitor of unist-util-visit calls its visitor. *)
Fixpoint preorder (n : Node) : list Node :=
  n :: match n with
       | Parent _ cs => flat_map preorder cs
       | _ => []
       end.

(** [visit(ast, ...)]: the root itself passes none of the tests used. *)
Definition visit (ast : Root) : list Node := flat_map preorder ast.

Definition isKind (p : ParentKind -> bool) (n : Node) : bool :=
  match n with
  | Parent k _ => p k
  | _ => false
  end.

Definition isHeading (n : Node) : bool :=
  isKind (fun k => match k with Heading _ => true | _ => false end) n.
Definition isH1 (n : Node) : bool :=
  isKind (fun k => match k with Heading d => Nat.eqb d 1 | _ => false end) n.
Definition isH2plus (n : Node) : bool :=
  isKind (fun k => match k with Heading d => Nat.leb 2 d | _ => false end) n.
Definition isParagraph (n : Node) : bool :=
  isKind (fun k => match k with Paragraph => true | _ => false end) n.
Definition isBlockquote (n : Node) : bool :=
  isKind (fun k => match k with Blockquote => true | _ => false end) n.
Definition isList (n : Node) : bool :=
  isKind (fun k => match k with ListNode => true | _ => false end) n.
Definition isListItem (n : Node) : bool :=
  isKind (fun k => match k with ListItem => true | _ => false end) n.
Definition isStrong (n : Node) : bool :=
  isKind (fun k => match k with Strong => true | _ => false end) n.
Definition isImage (n : Node) : bool :=
  match n with Image _ _ => true | _ => false end.

Fixpoint extractTextFromNode (n : Node) : jstring :=
  match n with
  | Text v => v
  | Parent _ cs => concat (List.map extractTextFromNode cs)
  | _ => []
  end.

Definition optStr (o : option jstring) : jstring :=
  match o with Some s => s | None => [] end.

Definition nodeToString (n : Node) : jstring :=
  match n with
  | Text v => v
  | Parent Paragraph _ => extractTextFromNode n
  | Code lang value =>
      lit "```" ++ optStr lang ++ [10%N] ++ value ++ [10%N] ++ lit "```"
  | Parent ListNode items =>
      concat (List.map (fun item => lit "- " ++ extractTextFromNode item ++ [10%N]) items)
  | Parent Blockquote _ => lit "> " ++ extractTextFromNode n
  | Parent (Heading d) _ => repeatStr (lit "#") d ++ lit " " ++ extractTextFromNode n
  | _ => extractTextFromNode n
  end.

(* ================================================================== *)
(** ** Links, sections and the values a section title can hold *)
(* ================================================================== *)

Record Link : Type := mkLink { label : jstring; href : jstring }.

(** What the expression [sectionMap[key] || fallback] can evaluate to.
    [sectionMap] is an object literal: a key that is no own property is
    looked up on [Object.prototype], whose properties are functions and
    objects, not strings. *)
Inductive Value : Type :=
| VStr (s : jstring)
| VInherited (property : jstring).

Record Section : Type :=
  mkSection { id : jstring; title : Value; content : jstring }.

(** ** Link Collector *)

Definition extractLinks (ast : Root) : list Link :=
  flat_map
    (fun n =>
       match n with
       | Parent (LinkNode url) _ =>
           let label := extractTextFromNode n in
           if truthy url && truthy label then [mkLink label url] else []
       | _ => []
       end)
    (visit ast).

(** ** CTA Resolver *)

Definition demoKeywords : list jstring :=
  [lit "demo"; lit "live"; lit "try"; lit "website"; lit "playground";
   lit "app"; lit "deploy"].

Definition hasDemoKeyword (link : Link) : bool :=
  let lowerLabel := toLowerCase (label link) in
  let lowerHref := toLowerCase (href link) in
  existsb (fun keyword => includes keyword lowerLabel || includes keyword lowerHref)
          demoKeywords.

(** The first loop of [extractCTA]: the link it returns, if any. *)
Fixpoint demoLink (links : list Link) : option Link :=
  match links with
  | [] => None
  | link :: rest =>
      if hasDemoKeyword link
         && (negb (startsWith (lit "#") (href link)) && negb (streq (href link) (lit "#")))
      then Some link
      else demoLink rest
  end.

(** [s.title.toLowerCase()]: a [TypeError] when the title is not a string. *)
Definition titleLower (s : Section) : Result jstring :=
  match title s with
  | VStr t => Ok (toLowerCase t)
  | VInherited _ => Throw TypeError
  end.

(** The predicate of [sections.some] and [sections.find] in [extractCTA]. *)
Definition isInstallSection (s : Section) : Result bool :=
  t <- titleLower s ;;
  Ok (includes (lit "install") t
      || includes (lit "quick start") t
      || includes (lit "installation") (id s)
      || includes (lit "setup") (id s)
      || includes (lit "quick-start") (id s)).

Definition githubOrDefault (links : list Link) : Link :=
  match find (fun l => includes (lit "github.com") (href l)) links with
  | Some githubLink => mkLink (lit "View on GitHub") (href githubLink)
  | None => mkLink (lit "Get Started") (lit "#")
  end.

Definition extractCTA (links : list Link) (sections : list Section) : Result Link :=
  match demoLink links with
  | Some link => Ok link
  | None =>
      hasInstallation <- someR isInstallSection sections ;;
      if hasInstallation
      then
        installSection <- findR isInstallSection sections ;;
        match installSection with
        | Some s => Ok (mkLink (lit "Get Started") (lit "#" ++ id s))
        | None => Ok (githubOrDefault links)
        end
      else Ok (githubOrDefault links)
  end.

(** ** Section Segmenter *)

(** The code units of the character class that [extractSections] removes
    from a heading, as the source text holds them. *)
Definition glyphs : list char16 :=
  [226; 339; 168; 240; 376; 381; 175; 353; 8364; 8220; 8217; 161; 8250;
   160; 239; 184; 338; 8222; 8221; 8212; 8482]%N.

Definition stripGlyphs (s : jstring) : jstring :=
  removeClass (fun c => memUnit c glyphs) s.

(** The own properties of the object literal [sectionMap]. *)
Definition sectionMap : list (jstring * jstring) :=
  [ (lit "usage", lit "How it works");
    (lit "quickstart", lit "How it works");
    (lit "getting started", lit "How it works");
    (lit "how it works", lit "How it works");
    (lit "installation", lit "Install");
    (lit "setup", lit "Install");
    (lit "quick start", lit "Quick Start");
    (lit "project structure", lit "Project Structure");
    (lit "idea categories", lit "Idea Categories");
    (lit "tech stack", lit "Tech Stack");
    (lit "configuration", lit "Configuration");
    (lit "options", lit "Configuration");
    (lit "roadmap", lit "Roadmap");
    (lit "todo", lit "Roadmap");
    (lit "contributing", lit "Contributing");
    (lit "license", lit "License");
    (lit "faq", lit "FAQ");
    (lit "connect", lit "Connect");
    (lit "live demo", lit "Live Demo");
    (lit "acknowledgments", lit "Acknowledgments") ].

(** The properties every object literal inherits from [Object.prototype]. *)
Definition objectPrototype : list jstring :=
  [ lit "constructor"; lit "__proto__"; lit "hasOwnProperty";
    lit "isPrototypeOf"; lit "propertyIsEnumerable"; lit "toLocaleString";
    lit "toString"; lit "valueOf"; lit "__defineGetter__";
    lit "__defineSetter__"; lit "__lookupGetter__"; lit "__lookupSetter__" ].

Fixpoint assoc {A : Type} (key : jstring) (table : list (jstring * A)) : option A :=
  match table with
  | [] => None
  | (k, v) :: rest => if streq k key then Some v else assoc key rest
  end.

(** [sectionMap[key]]; [None] is [undefined]. *)
Definition sectionMapGet (key : jstring) : option Value :=
  match assoc key sectionMap with
  | Some v => Some (VStr v)
  | None =>
      if existsb (streq key) objectPrototype then Some (VInherited key) else None
  end.

(** The character class [[^a-z0-9-]] complemented. *)
Definition isSlugChar (c : char16) : bool :=
  isLower c || isDigit c || N.eqb c 45.

Definition slugify (headingTextLower : jstring) : jstring :=
  removeClass (fun c => negb (isSlugChar c))
              (replaceWhiteRuns (lit "-") false headingTextLower).

(** The section a heading of depth 2 or more starts. *)
Definition startSection (node : Node) : Section :=
  let headingText := extractTextFromNode node in
  let headingTextLower := trim (stripGlyphs (toLowerCase headingText)) in
  let mappedTitle :=
    match sectionMapGet headingTextLower with
    | Some v => v
    | None => VStr (trim (stripGlyphs headingText))
    end in
  mkSection (slugify headingTextLower) mappedTitle [].

(** The local variables of the loop of [extractSections]. *)
Record SegState : Type := mkSegState {
  sections : list Section;
  currentSection : option Section;
  contentNodes : list Node;
  skipUntilFirstH2 : bool
}.

(** "Save previous section" and "Add last section". *)
Definition saveSection (st : SegState) : list Section :=
  match currentSection st with
  | Some cur =>
      let markdown := join [10; 10]%N (List.map nodeToString (contentNodes st)) in
      if truthy (trim markdown)
      then sections st ++ [mkSection (id cur) (title cur) (trim markdown)]
      else sections st
  | None => sections st
  end.

Definition segStep (st : SegState) (node : Node) : SegState :=
  if skipUntilFirstH2 st && negb (isH2plus node) then st
  else if isH2plus node
  then mkSegState (saveSection st) (Some (startSection node)) [] false
  else match currentSection st with
       | Some _ =>
           mkSegState (sections st) (currentSection st) (contentNodes st ++ [node]) false
       | None => st
       end.

Definition extractSections (ast : Root) : list Section :=
  saveSection (fold_left segStep ast (mkSegState [] None [] true)).

(** ** Section Orderer *)

Definition priorityOrder : list jstring :=
  [ lit "how-it-works"; lit "how it works"; lit "quick-start"; lit "quick start";
    lit "installation"; lit "install"; lit "getting-started"; lit "getting started";
    lit "usage"; lit "examples"; lit "demo"; lit "configuration"; lit "api";
    lit "documentation"; lit "tech-stack"; lit "tech stack"; lit "project-structure";
    lit "project structure"; lit "idea-categories"; lit "idea categories";
    lit "contributing"; lit "roadmap"; lit "faq"; lit "troubleshooting";
    lit "changelog"; lit "acknowledgments"; lit "license"; lit "connect" ].

(** A JavaScript [Map] with string keys: the entries in insertion order. *)
Definition JsMap (A : Type) := list (jstring * A).

(** [map.set(key, v)]: a key already present keeps its place and takes the
    new value. *)
Fixpoint mapSet {A : Type} (key : jstring) (v : A) (m : JsMap A) : JsMap A :=
  match m with
  | [] => [(key, v)]
  | (k, w) :: rest =>
      if streq k key then (k, v) :: rest else (k, w) :: mapSet key v rest
  end.

(** [new Map(entries)]. *)
Definition newMap {A : Type} (entries : list (jstring * A)) : JsMap A :=
  fold_left (fun m e => mapSet (fst e) (snd e) m) entries [].

(** A JavaScript [Set] of strings, read through [has] only. *)
Definition JsSet := list jstring.
Definition setHas (s : JsSet) (x : jstring) : bool := existsb (streq x) s.
Definition setAdd (s : JsSet) (x : jstring) : JsSet := if setHas s x then s else s ++ [x].

Definition matchesPriority (id priorityId : jstring) : bool :=
  streq id priorityId || includes priorityId id || includes id priorityId.

(** The inner loop over [sectionMap.entries()], up to its [break]. *)
Fixpoint firstUnplaced (added : JsSet) (priorityId : jstring)
         (entries : JsMap Section) : option (jstring * Section) :=
  match entries with
  | [] => None
  | (id, section) :: rest =>
      if negb (setHas added id) && matchesPriority id priorityId
      then Some (id, section)
      else firstUnplaced added priorityId rest
  end.

(** The outer loop over [priorityOrder], on the pair [(ordered, added)]. *)
Fixpoint placeByPriority (sectionMap : JsMap Section) (priorities : list jstring)
         (ordered : list Section) (added : JsSet) : list Section * JsSet :=
  match priorities with
  | [] => (ordered, added)
  | priorityId :: rest =>
      match firstUnplaced added priorityId sectionMap with
      | Some (id, section) =>
          placeByPriority sectionMap rest (ordered ++ [section]) (setAdd added id)
      | None => placeByPriority sectionMap rest ordered added
      end
  end.

Definition orderSectionsIntelligently (sections : list Section) : list Section :=
  let sectionMap := newMap (List.map (fun s => (toLowerCase (id s), s)) sections) in
  let '(ordered, added) := placeByPriority sectionMap priorityOrder [] [] in
  ordered ++ filter (fun section => negb (setHas added (toLowerCase (id section)))) sections.

(** ** Title Extractor *)

Definition extractTitle (ast : Root) : jstring :=
  let title :=
    fold_left
      (fun title node =>
         if isH1 node && negb (truthy title) then extractTextFromNode node else title)
      (visit ast) [] in
  let title :=
    if truthy title then title
    else
      fold_left
        (fun title node =>
           if isParagraph node && negb (truthy title)
           then
             let text := extractTextFromNode node in
             if truthy (trim text) then trim text else title
           else title)
        (visit ast) [] in
  orElse title (lit "Untitled Project").

(** ** Tagline Extractor *)

(** The loop over [ast.children]; a [break] ends the recursion. *)
Fixpoint taglineScan (nodes : list Node) (tagline : jstring) (foundH1 : bool)
         (paragraphCount : nat) : jstring :=
  match nodes with
  | [] => tagline
  | node :: rest =>
      if isH1 node then taglineScan rest tagline true paragraphCount
      else if foundH1 then
        if isParagraph node then
          let text := trim (extractTextFromNode node) in
          if truthy text then
            let paragraphCount := S paragraphCount in
            if Nat.eqb paragraphCount 1 && Nat.ltb (length text) 200
            then text
            else if negb (truthy tagline) && Nat.ltb (length text) 200
            then taglineScan rest text foundH1 paragraphCount
            else taglineScan rest tagline foundH1 paragraphCount
          else taglineScan rest tagline foundH1 paragraphCount
        else if isH2plus node then
          if negb (truthy tagline) then tagline
          else taglineScan rest tagline foundH1 paragraphCount
        else taglineScan rest tagline foundH1 paragraphCount
      else taglineScan rest tagline foundH1 paragraphCount
  end.

(** The value of [tagline] before the truncation step. *)
Definition selectTagline (ast : Root) : jstring :=
  let tagline := taglineScan ast [] false 0 in
  if negb (truthy tagline)
  then
    fold_left
      (fun tagline node =>
         if isParagraph node && negb (truthy tagline)
         then
           let text := trim (extractTextFromNode node) in
           if truthy text && Nat.ltb (length text) 200 then text else tagline
         else tagline)
      (visit ast) tagline
  else tagline.

Definition taglinePlaceholder : jstring :=
  lit "A great project that solves real problems.".

Definition extractTagline (ast : Root) : jstring :=
  let tagline := selectTagline ast in
  let tagline :=
    if Nat.ltb 160 (length tagline)
    then substring0 157 tagline ++ lit "..."
    else tagline in
  orElse tagline taglinePlaceholder.

(** ** Secondary Link Curator *)

(** An array of objects: each element with its identity (here its index in
    the array it was created in), so that [!==] and [Array.includes] compare
    references as the source does. *)
Definition indexed {A : Type} (l : list A) : list (nat * A) :=
  combine (seq 0 (length l)) l.

(** [l.slice(0, e)]: a negative [e] counts from the end. *)
Definition sliceTo {A : Type} (e : Z) (l : list A) : list A :=
  if (e <? 0)%Z
  then firstn (Z.to_nat (Z.of_nat (length l) + e)) l
  else firstn (Z.to_nat e) l.

(** [s.replace(pat, rep)] for a string pattern: the first occurrence only. *)
Fixpoint replaceFirst (pat rep s : jstring) : jstring :=
  if startsWith pat s then rep ++ skipn (length pat) s
  else match s with
       | [] => []
       | c :: s' => c :: replaceFirst pat rep s'
       end.

(** [l.map(f)] for a callback that may throw. *)
Fixpoint mapR {A B : Type} (f : A -> Result B) (l : list A) : Result (list B) :=
  match l with
  | [] => Ok []
  | x :: l' => y <- f x ;; ys <- mapR f l' ;; Ok (y :: ys)
  end.

Definition keepLink (cta link : Link) : bool :=
  if streq (href link) (href cta) || streq (href link) (lit "#") then false
  else if startsWith (lit "http") (href link) then true
  else if startsWith (lit "#") (href link) then true
  else false.

Definition isSocial (l : Link) : bool :=
  includes (lit "twitter.com") (href l)
  || includes (lit "x.com") (href l)
  || includes (lit "linkedin.com") (href l)
  || includes (lit "bluesky") (href l).

Definition sameRef {A : Type} (a b : nat * A) : bool := Nat.eqb (fst a) (fst b).

(** The array [result.slice(0, 4)] of [extractSecondaryLinks], before the
    labels are filled in. *)
Definition curateLinks (links : list Link) (cta : Link) : list (nat * Link) :=
  let filtered := filter (fun l => keepLink cta (snd l)) (indexed links) in
  let github := find (fun l => includes (lit "github.com") (href (snd l))) filtered in
  let social := filter (fun l => isSocial (snd l)) filtered in
  let others :=
    filter
      (fun l =>
         negb (match github with Some g => sameRef l g | None => false end)
         && negb (existsb (sameRef l) social))
      filtered in
  let result :=
    match github with
    | Some g => if negb (streq (href (snd g)) (href cta)) then [g] else []
    | None => []
    end in
  let result := result ++ sliceTo 2 social in
  let result := result ++ sliceTo (3 - Z.of_nat (length result)) others in
  sliceTo 4 result.

Section SecondaryLinks.

(** [new URL(href).hostname]: the platform's URL parser, which throws on a
    string that is not a URL. *)
Variable urlHostname : jstring -> Result jstring.

(** The callback of the final [map]. *)
Definition displayLink (link : Link) : Result Link :=
  if truthy (label link) then Ok (mkLink (label link) (href link))
  else if startsWith (lit "http") (href link)
  then
    hostname <- urlHostname (href link) ;;
    Ok (mkLink (replaceFirst (lit "www.") [] hostname) (href link))
  else Ok (mkLink (href link) (href link)).

Definition extractSecondaryLinks (links : list Link) (cta : Link) : Result (list Link) :=
  mapR (fun l => displayLink (snd l)) (curateLinks links cta).

End SecondaryLinks.

(* ================================================================== *)
(** ** The regular expressions of the extractors *)
(* ================================================================== *)

(** [s.endsWith(p)]. *)
Definition endsWith (p s : jstring) : bool := startsWith (rev p) (rev s).

(** [s.split(re)] for a regular expression without groups that matches no
    empty string: [sep s] is the length of the match of [re] at the start
    of [s], if there is one.  [skip] counts the code units of a separator
    still to be passed, [cur] holds the current part, reversed. *)
Fixpoint splitGo (sep : jstring -> option nat) (s : jstring) (skip : nat)
         (cur : jstring) : list jstring :=
  match s with
  | [] => [rev cur]
  | c :: s' =>
      match skip with
      | S k => splitGo sep s' k cur
      | O =>
          match sep s with
          | Some (S n) => rev cur :: splitGo sep s' n []
          | _ => splitGo sep s' 0 (c :: cur)
          end
      end
  end.

Definition split (sep : jstring -> option nat) (s : jstring) : list jstring :=
  splitGo sep s 0 [].

(** [/\s+/] *)
Definition sepWhite (s : jstring) : option nat :=
  match length (takeWhile isWhite s) with
  | O => None
  | n => Some n
  end.

(** [/:\s+/] *)
Definition sepColon (s : jstring) : option nat :=
  match s with
  | c :: rest =>
      if N.eqb c 58
      then match length (takeWhile isWhite rest) with
           | O => None
           | n => Some (S n)
           end
      else None
  | [] => None
  end.

(** The class [[-...]] of dash characters, as the source text holds it. *)
Definition isDash (c : char16) : bool := memUnit c [45; 226; 8364; 8220; 8221]%N.

(** The separator of [extractTestimonials]: a dash followed by white space,
    or a line feed. *)
Definition sepDashOrNewline (s : jstring) : option nat :=
  match s with
  | c :: rest =>
      if isDash c then Some (S (length (takeWhile isWhite rest)))
      else if N.eqb c 10 then Some 1
      else None
  | [] => None
  end.

(** The leading pictograph of a feature item: the regular expression has the
    unicode flag, so a surrogate pair is read as one code point. *)
Definition isEmojiPoint (cp : N) : bool :=
  (inRange 0x1F300 0x1F9FF cp || inRange 0x2600 0x26FF cp || inRange 0x2700 0x27BF cp)%N.

Definition leadingEmoji (text : jstring) : option jstring :=
  match text with
  | [] => None
  | hi :: rest =>
      match rest with
      | lo :: _ =>
          if (inRange 0xD800 0xDBFF hi && inRange 0xDC00 0xDFFF lo)%N
          then
            if isEmojiPoint (0x10000 + (hi - 0xD800) * 0x400 + (lo - 0xDC00))%N
            then Some [hi; lo] else None
          else if isEmojiPoint hi then Some [hi] else None
      | [] => if isEmojiPoint hi then Some [hi] else None
      end
  end.

(** [s.replace(/^[-*+]\s+/, '')] *)
Definition stripListMarker (s : jstring) : jstring :=
  match s with
  | c :: rest =>
      if memUnit c [45; 42; 43]%N && truthy (takeWhile isWhite rest)
      then dropWhile isWhite rest
      else s
  | [] => []
  end.

Definition noLineTerminator (s : jstring) : bool :=
  forallb (fun c => negb (isLineTerminator c)) s.

(** The end of the dash pattern, [\s*(.+)$], on the text [r] after the dash:
    the white-space run of at most [m] code units is taken greedily and
    given back until what is left is a non-empty line. *)
Fixpoint dashTail (m : nat) (r : jstring) : option jstring :=
  let g2 := skipn m r in
  if truthy g2 && noLineTerminator g2 then Some g2
  else match m with
       | O => None
       | S m' => dashTail m' r
       end.

(** [^(.+?)\s*[-...]\s*(.+)$] once the lazy first group holds [g1]
    (reversed, non-empty) and [s] is the text after it. *)
Fixpoint dashMatchFrom (g1 s : jstring) : option (jstring * jstring) :=
  let here :=
    match dropWhile isWhite s with
    | d :: r =>
        if isDash d
        then match dashTail (length (takeWhile isWhite r)) r with
             | Some g2 => Some (rev g1, g2)
             | None => None
             end
        else None
    | [] => None
    end in
  match here with
  | Some m => Some m
  | None =>
      match s with
      | c :: s' => if isLineTerminator c then None else dashMatchFrom (c :: g1) s'
      | [] => None
      end
  end.

Definition dashMatch (s : jstring) : option (jstring * jstring) :=
  match s with
  | c :: s' => if isLineTerminator c then None else dashMatchFrom [c] s'
  | [] => None
  end.

(** [s.replace(/^\*\*|\*\*$/g, '')] *)
Definition stripBold (s : jstring) : jstring :=
  let s := if startsWith (lit "**") s then skipn 2 s else s in
  if endsWith (lit "**") s then firstn (length s - 2) s else s.

(** ** Feature Extractor *)

Record Feature : Type :=
  mkFeature { featureTitle : jstring; desc : option jstring; icon : option jstring }.

Definition featureKeywords : list jstring :=
  [lit "feature"; lit "what's"; lit "why"; lit "highlight"; lit "benefit";
   lit "advantage"; lit "capability"; lit "key"].

(** The string literal of the second test on a heading, as the source text
    holds it. *)
Definition sparkles : jstring := [226; 339; 168]%N.

Definition isFeatureHeading (node : Node) : bool :=
  isHeading node &&
  (let text := toLowerCase (extractTextFromNode node) in
   existsb (fun keyword => includes keyword text) featureKeywords
   || includes sparkles text).

(** The inner loop: the nodes after the heading, at most four of them. *)
Fixpoint lookForList (next : list Node) : option Node :=
  match next with
  | [] => None
  | nextNode :: rest =>
      if isList nextNode then Some nextNode
      else if isKind (fun k => match k with Heading d => Nat.leb d 2 | _ => false end) nextNode
      then None
      else lookForList rest
  end.

Fixpoint findFeatureList (nodes : list Node) : option Node :=
  match nodes with
  | [] => None
  | node :: rest =>
      if isFeatureHeading node then lookForList (firstn 4 rest)
      else findFeatureList rest
  end.

(** [s || undefined] *)
Definition orUndefined (s : jstring) : option jstring :=
  if truthy s then Some s else None.

Definition featureOfItem (node : Node) : list Feature :=
  let text := extractTextFromNode node in
  if truthy (trim text)
  then
    let emojiMatch := leadingEmoji text in
    let cleanText :=
      match emojiMatch with
      | Some e => trim (replaceFirst e [] text)
      | None => text
      end in
    let cleanText := trim (stripListMarker cleanText) in
    match dashMatch cleanText with
    | Some (g1, g2) =>
        [mkFeature (trim (stripBold g1)) (Some (trim (stripBold g2))) emojiMatch]
    | None =>
        let parts := split sepColon cleanText in
        let title := orElse (hd [] parts) (substring0 60 cleanText) in
        let desc := orUndefined (trim (join (lit ": ") (tl parts))) in
        [mkFeature (trim (stripBold title))
                   (option_map (fun d => trim (stripBold d)) desc)
                   emojiMatch]
    end
  else [].

Definition boldFeatures (ast : Root) : list Feature :=
  fold_left
    (fun features node =>
       if isParagraph node && Nat.ltb (length features) 5
       then
         fold_left
           (fun features strongNode =>
              if isStrong strongNode
              then
                let strongText := extractTextFromNode strongNode in
                if truthy (trim strongText) && Nat.ltb (length features) 5
                then features ++ [mkFeature (trim strongText) None None]
                else features
              else features)
           (preorder node) features
       else features)
    (visit ast) [].

Definition extractFeatures (ast : Root) : list Feature :=
  let features :=
    match findFeatureList ast with
    | Some featureList =>
        flat_map (fun node => if isListItem node then featureOfItem node else [])
                 (preorder featureList)
    | None => []
    end in
  let features :=
    match features with
    | [] => boldFeatures ast
    | _ => features
    end in
  firstn 6 features.

(** ** Badge Extractor *)

Record Badge : Type := mkBadge { badgeLabel : jstring; badgeHref : option jstring }.

Definition includesAny (keywords : list jstring) (s : jstring) : bool :=
  existsb (fun keyword => includes keyword s) keywords.

(** A capitalised word [[A-Z][a-zA-Z]+] at the start of [s]: its length. *)
Definition capWord (s : jstring) : option nat :=
  match s with
  | c :: rest =>
      if isUpper c
      then match length (takeWhile isAlpha rest) with
           | O => None
           | n => Some (S n)
           end
      else None
  | [] => None
  end.

(** The word boundary after a word character, before [s]. *)
Definition boundaryBefore (s : jstring) : bool :=
  match s with
  | [] => true
  | c :: _ => negb (isWord c)
  end.

(** The pattern of [techWords] is a word boundary, capitalised words
    separated by white space, and a word boundary.  This is the rest of the
    pattern after [len] code units that end in a capitalised word, [s] being
    the text that follows: one more word is tried first, and given back
    when no word boundary can be reached that way. *)
Fixpoint capWordsFrom (fuel : nat) (s : jstring) (len : nat) : option nat :=
  let stop := if boundaryBefore s then Some len else None in
  match fuel with
  | O => stop
  | S fuel' =>
      let more :=
        match length (takeWhile isWhite s) with
        | O => None
        | ws =>
            let s1 := skipn ws s in
            match capWord s1 with
            | Some w => capWordsFrom fuel' (skipn w s1) (len + ws + w)
            | None => None
            end
        end in
      match more with
      | Some l => Some l
      | None => stop
      end
  end.

(** The match of the pattern at the start of [s], [prev] being the code
    unit before it. *)
Definition techWordAt (prev : option char16) (s : jstring) : option nat :=
  if match prev with Some p => isWord p | None => false end then None
  else match capWord s with
       | Some w => capWordsFrom (length s) (skipn w s) w
       | None => None
       end.

(** The number of matches [text.match(/.../g)] returns. *)
Fixpoint countTechWords (s : jstring) (prev : option char16) (skip : nat) : nat :=
  match s with
  | [] => 0
  | c :: s' =>
      match skip with
      | S k => countTechWords s' (Some c) k
      | O =>
          match techWordAt prev s with
          | Some (S n) => S (countTechWords s' (Some c) n)
          | _ => countTechWords s' (Some c) 0
          end
      end
  end.

Definition badgeTechKeywords : list jstring :=
  [lit "next"; lit "react"; lit "vue"; lit "angular"; lit "typescript";
   lit "javascript"; lit "python"; lit "node"; lit "tailwind"; lit "css";
   lit "html"; lit "license"; lit "mit"; lit "apache"].

(** [/^[A-Z][a-z]/.test(w)] *)
Definition startsCapitalised (w : jstring) : bool :=
  match w with
  | a :: b :: _ => isUpper a && isLower b
  | _ => false
  end.

(** The badges and the labels seen so far. *)
Definition BadgeState : Type := (list Badge * JsSet)%type.

Definition imageBadge (st : BadgeState) (node : Node) : BadgeState :=
  let '(badges, seen) := st in
  match node with
  | Image url (Some nodeAlt) =>
      if truthy nodeAlt
      then
        let alt := toLowerCase nodeAlt in
        if includesAny [lit "license"; lit "version"; lit "build"; lit "status"; lit "badge"] alt
        then
          if negb (setHas seen (toLowerCase nodeAlt))
          then (badges ++ [mkBadge nodeAlt (orUndefined url)],
                setAdd seen (toLowerCase nodeAlt))
          else st
        else st
      else st
  | _ => st
  end.

Definition linkBadge (st : BadgeState) (link : Link) : BadgeState :=
  let '(badges, seen) := st in
  let label' := toLowerCase (label link) in
  let href' := toLowerCase (href link) in
  if (includesAny [lit "license"; lit "version"; lit "npm"; lit "badge"] label'
      || includesAny [lit "shields.io"; lit "badge"] href')
     && negb (setHas seen label')
  then (badges ++ [mkBadge (label link) (Some (href link))], setAdd seen label')
  else st.

Definition techLineBadges (st : BadgeState) (node : Node) : BadgeState :=
  if isParagraph node
  then
    let text := extractTextFromNode node in
    if Nat.ltb (length text) 100 && Nat.leb (length (split sepWhite text)) 8
    then
      let techWords := countTechWords text None 0 in
      if Nat.leb 3 techWords && Nat.leb techWords 6
      then
        let words :=
          filter (fun w => Nat.ltb 2 (length w) && startsCapitalised w
                           && negb (includes (lit ".") w))
                 (split sepWhite text) in
        let validTechs :=
          filter (fun w => includesAny badgeTechKeywords (toLowerCase w)
                           || Nat.ltb 3 (length w))
                 words in
        if Nat.leb 2 (length validTechs) && Nat.leb (length validTechs) 5
        then
          fold_left
            (fun st word =>
               let '(badges, seen) := st in
               if negb (setHas seen (toLowerCase word))
               then (badges ++ [mkBadge word None], setAdd seen (toLowerCase word))
               else st)
            (firstn 4 validTechs) st
        else st
      else st
    else st
  else st.

Definition extractBadges (ast : Root) (links : list Link) : list Badge :=
  let st := fold_left imageBadge (visit ast) ([], []) in
  let st := fold_left linkBadge links st in
  let st :=
    if Nat.ltb (length (fst st)) 2
    then fold_left techLineBadges (visit ast) st
    else st in
  firstn 5 (fst st).

(** ** Hero Image Selector *)

Record HeroImage : Type := mkHeroImage { heroUrl : jstring; heroAlt : jstring }.

Definition heroKeywords : list jstring :=
  [lit "screenshot"; lit "demo"; lit "preview"; lit "logo"; lit "hero"; lit "banner"].

(** The visitor of [extractHeroImage] on its two variables [foundH1] and
    [heroImage] (the image node: its url and alt). *)
Definition heroStep (st : bool * option (jstring * option jstring)) (node : Node)
  : bool * option (jstring * option jstring) :=
  let '(foundH1, heroImage) := st in
  if isH1 node then (true, heroImage)
  else
    match node, heroImage with
    | Image url imgAlt, None =>
        if foundH1
        then
          let alt := toLowerCase (optStr imgAlt) in
          if includesAny heroKeywords alt
          then (foundH1, Some (url, imgAlt))
          else (foundH1, Some (url, imgAlt))
        else st
    | _, _ => st
    end.

Definition extractHeroImage (ast : Root) : option HeroImage :=
  match snd (fold_left heroStep (visit ast) (false, None)) with
  | Some (url, alt) =>
      if truthy url
      then Some (mkHeroImage url (orElse (optStr alt) (lit "Hero image")))
      else None
  | None => None
  end.

(** ** Stat Extractor *)

Record Stat : Type := mkStat { statLabel : jstring; statValue : jstring }.

(** The match of [(\d+[kKmMbB]?\+?)\s+(\w+)] at the start of [s]: the two
    groups and the length of the match. *)
Definition statAt (s : jstring) : option (jstring * jstring * nat) :=
  let digits := takeWhile isDigit s in
  match digits with
  | [] => None
  | _ =>
      let s1 := skipn (length digits) s in
      let suffix :=
        match s1 with
        | c :: _ => if memUnit c [107; 75; 109; 77; 98; 66]%N then [c] else []
        | [] => []
        end in
      let s2 := skipn (length suffix) s1 in
      let plus :=
        match s2 with
        | c :: _ => if N.eqb c 43 then [c] else []
        | [] => []
        end in
      let s3 := skipn (length plus) s2 in
      let white := takeWhile isWhite s3 in
      let word := takeWhile isWord (skipn (length white) s3) in
      match white, word with
      | _ :: _, _ :: _ =>
          Some (digits ++ suffix ++ plus, word,
                length digits + length suffix + length plus + length white + length word)
      | _, _ => None
      end
  end.

(** [text.matchAll(statPattern)]: the matches from left to right, each
    search starting where the previous match ended. *)
Fixpoint statMatches (s : jstring) (skip : nat) : list Stat :=
  match s with
  | [] => []
  | _ :: s' =>
      match skip with
      | S k => statMatches s' k
      | O =>
          match statAt s with
          | Some (value, label, S n) => mkStat label value :: statMatches s' n
          | _ => statMatches s' 0
          end
      end
  end.

(** The [for] loop over the matches of one text. *)
Definition pushStats (stats : list Stat) (text : jstring) : list Stat :=
  fold_left
    (fun stats m => if Nat.ltb (length stats) 4 then stats ++ [m] else stats)
    (statMatches text 0) stats.

Definition extractStats (ast : Root) : option (list Stat) :=
  let stats :=
    fold_left
      (fun stats node =>
         if isParagraph node then pushStats stats (extractTextFromNode node) else stats)
      (visit ast) [] in
  let stats :=
    fold_left
      (fun stats node =>
         if isListItem node then pushStats stats (extractTextFromNode node) else stats)
      (visit ast) stats in
  if Nat.ltb 0 (length stats) then Some (firstn 4 stats) else None.

(** ** Tech-Stack Detector *)

Definition techKeywords : list jstring :=
  [lit "react"; lit "vue"; lit "angular"; lit "next"; lit "typescript";
   lit "javascript"; lit "python"; lit "node"; lit "rust"; lit "go"; lit "java";
   lit "php"; lit "ruby"; lit "swift"; lit "kotlin"; lit "docker";
   lit "kubernetes"; lit "aws"; lit "gcp"; lit "azure"; lit "postgresql";
   lit "mysql"; lit "mongodb"; lit "redis"; lit "tailwind"; lit "bootstrap";
   lit "sass"; lit "webpack"; lit "vite"].

(** [techStack.includes(x)] *)
Definition arrayIncludes (l : list jstring) (x : jstring) : bool := existsb (streq x) l.

Definition extractTechStack (ast : Root) : option (list jstring) :=
  let techStack :=
    fold_left
      (fun techStack node =>
         if isParagraph node
         then
           let text := toLowerCase (extractTextFromNode node) in
           fold_left
             (fun techStack keyword =>
                if includes keyword text && negb (arrayIncludes techStack keyword)
                then techStack ++ [keyword] else techStack)
             techKeywords techStack
         else techStack)
      (visit ast) [] in
  let techStack :=
    fold_left
      (fun techStack node =>
         match node with
         | Code (Some lang) _ =>
             if truthy lang && negb (arrayIncludes techStack lang)
             then techStack ++ [lang] else techStack
         | _ => techStack
         end)
      (visit ast) techStack in
  if Nat.ltb 0 (length techStack) then Some (firstn 8 techStack) else None.

(** ** Testimonial Extractor *)

Record Testimonial : Type := mkTestimonial { quote : jstring; author : option jstring }.

Definition extractTestimonials (ast : Root) : option (list Testimonial) :=
  let testimonials :=
    flat_map
      (fun node =>
         if isBlockquote node
         then
           let text := extractTextFromNode node in
           if Nat.ltb 20 (length text) && Nat.ltb (length text) 300
           then
             let parts := split sepDashOrNewline text in
             let quote := orElse (trim (hd [] parts)) (trim text) in
             let author :=
               match nth_error parts 1 with
               | Some a => orUndefined (trim a)
               | None => None
               end in
             if truthy quote then [mkTestimonial quote author] else []
           else []
         else [])
      (visit ast) in
  if Nat.ltb 0 (length testimonials) then Some (firstn 3 testimonials) else None.

(* ================================================================== *)
(** ** Assembler *)
(* ================================================================== *)

(** The result record.  An optional field holds [None] when the value
    assigned to it is [undefined]. *)
Record PageModel : Type := mkPageModel {
  pmTitle : jstring;
  tagline : jstring;
  cta : Link;
  secondaryLinks : list Link;
  features : list Feature;
  pmSections : list Section;
  badges : option (list Badge);
  heroImage : option HeroImage;
  stats : option (list Stat);
  techStack : option (list jstring);
  testimonials : option (list Testimonial)
}.

Section Assembler.

Variable urlHostname : jstring -> Result jstring.

(** [parseReadme], from the parsed tree on. *)
Definition parseReadme (ast : Root) : Result PageModel :=
  let title := extractTitle ast in
  let tagline := extractTagline ast in
  let links := extractLinks ast in
  let sections := extractSections ast in
  cta <- extractCTA links sections ;;
  secondaryLinks <- extractSecondaryLinks urlHostname links cta ;;
  let features := extractFeatures ast in
  let badges := extractBadges ast links in
  let heroImage := extractHeroImage ast in
  let stats := extractStats ast in
  let techStack := extractTechStack ast in
  let testimonials := extractTestimonials ast in
  let orderedSections := orderSectionsIntelligently sections in
  Ok (mkPageModel title tagline cta secondaryLinks features orderedSections
                  (Some badges) heroImage stats techStack testimonials).

End Assembler.

(* ================================================================== *)
(** ** The page component: layout groups *)
(* ================================================================== *)

(** [LandingPage] of src/components/landing-page.tsx sorts the sections of
    the model into three groups before it renders them.  The sections of a
    model are distinct objects, and [Array.prototype.includes] compares
    objects by identity: a section is identified here by its position in
    [model.sections]. *)

Definition primaryKeys : list jstring :=
  [lit "how-it-works"; lit "how it works"; lit "quick-start"; lit "quick start";
   lit "installation"; lit "install"; lit "getting-started"; lit "usage"].

Definition secondaryKeys : list jstring :=
  [lit "tech-stack"; lit "tech stack"; lit "project-structure";
   lit "project structure"; lit "idea-categories"; lit "configuration"].

(** [keys.some(key => s.id.toLowerCase().includes(key)
                      || s.title.toLowerCase().includes(key))] *)
Definition inGroup (keys : list jstring) (s : Section) : Result bool :=
  someR
    (fun key =>
       if includes key (toLowerCase (id s)) then Ok true
       else t <- titleLower s ;; Ok (includes key t))
    keys.

(** [l.filter(p)] with a predicate that may throw. *)
Fixpoint filterR {A : Type} (p : A -> Result bool) (l : list A) : Result (list A) :=
  match l with
  | [] => Ok []
  | x :: l' =>
      b <- p x ;;
      rest <- filterR p l' ;;
      Ok (if b then x :: rest else rest)
  end.

Record Layout : Type := mkLayout {
  primarySections : list (nat * Section);
  secondarySections : list (nat * Section);
  tertiarySections : list (nat * Section)
}.

Definition categorize (sections : list Section) : Result Layout :=
  primary <- filterR (fun s => inGroup primaryKeys (snd s)) (indexed sections) ;;
  secondary <- filterR (fun s => inGroup secondaryKeys (snd s)) (indexed sections) ;;
  let tertiary :=
    filter
      (fun s => negb (existsb (sameRef s) primary)
                && negb (existsb (sameRef s) secondary))
      (indexed sections) in
  Ok (mkLayout primary secondary tertiary).

(* ================================================================== *)
(** ** The page: name of the downloaded file *)
(* ================================================================== *)

(** [downloadHTML] of src/app/page.tsx names the file
    [`${pageModel.title.toLowerCase().replace(/\s+/g, '-')}-landing.html`]. *)
Definition downloadName (title : jstring) : jstring :=
  replaceWhiteRuns (lit "-") false (toLowerCase title) ++ lit "-landing.html".

(* ================================================================== *)
(** ** Documents and definitions used to state the properties *)
(* ================================================================== *)

Definition paragraph (s : string) : Node := Parent Paragraph [Text (lit s)].
Definition heading (d : nat) (s : string) : Node := Parent (Heading d) [Text (lit s)].

(** The tree the parser returns for the end-to-end scenario
    [# Foo / Does bar. / ## Features / - **Fast** - very fast /
     ## Installation / ```bash npm i foo ```]. *)
Definition endToEndDocument : Root :=
  [ heading 1 "Foo";
    paragraph "Does bar.";
    heading 2 "Features";
    Parent ListNode
      [Parent ListItem
         [Parent Paragraph [Parent Strong [Text (lit "Fast")]; Text (lit " - very fast")]]];
    heading 2 "Installation";
    Code (Some (lit "bash")) (lit "npm i foo") ].

(** A URL parser that rejects every string: the most hostile platform. *)
Definition rejectingURL (s : jstring) : Result jstring := Throw InvalidURL.

(** Two headings that slugify to the same id, which matches no keyword of
    the priority list. *)
Definition duplicateHeadings : Root :=
  [ heading 2 "Notes"; paragraph "First.";
    heading 2 "Notes"; paragraph "Second." ].

(** *** The Section Orderer as the specification words it *)

(** An id matches a keyword when it contains the keyword or is contained
    by it. *)
Definition idMatches (keyword : jstring) (s : Section) : bool :=
  includes keyword (id s) || includes (id s) keyword.

(** The first element that satisfies [p], and the list without it. *)
Fixpoint pickFirst {A : Type} (p : A -> bool) (l : list A) : option (A * list A) :=
  match l with
  | [] => None
  | x :: rest =>
      if p x then Some (x, rest)
      else match pickFirst p rest with
           | Some (y, rest') => Some (y, x :: rest')
           | None => None
           end
  end.

(** For each keyword in priority order, the first not-yet-placed section
    whose id matches it is appended to the output; the sections that are
    never placed follow in document order. *)
Fixpoint greedyOrder (keywords : list jstring) (placed unplaced : list Section)
  : list Section :=
  match keywords with
  | [] => placed ++ unplaced
  | keyword :: rest =>
      match pickFirst (idMatches keyword) unplaced with
      | Some (s, others) => greedyOrder rest (placed ++ [s]) others
      | None => greedyOrder rest placed unplaced
      end
  end.

(** The three sections of the ordering example, in document order. *)
Definition orderingExample : list Section :=
  [ mkSection (lit "license") (VStr (lit "License")) (lit "MIT");
    mkSection (lit "installation") (VStr (lit "Install")) (lit "npm i foo");
    mkSection (lit "faq") (VStr (lit "FAQ")) (lit "None yet.") ].

(** Two sections with the same id, which matches the keyword "usage". *)
Definition twoUsageSections : list Section :=
  [ mkSection (lit "usage") (VStr (lit "How it works")) (lit "First.");
    mkSection (lit "usage") (VStr (lit "How it works")) (lit "Second.") ].



(** A title followed by a pitch of 170 characters. *)
Definition longTaglineDocument : Root :=
  [ heading 1 "Tool"; Parent Paragraph [Text (repeat 97%N 170)] ].

Definition link (text url : string) : Node := Parent (LinkNode (lit url)) [Text (lit text)].

(** A document with a live-demo link, a repository link, a social link, a
    documentation link, a placeholder link and a second link to the demo. *)
Definition linkedDocument : Root :=
  [ heading 1 "Foo";
    Parent Paragraph
      [ link "Live demo" "https://foo.dev"; Text (lit " ");
        link "Source" "https://github.com/a/foo"; Text (lit " ");
        link "Twitter" "https://twitter.com/foo"; Text (lit " ");
        link "Docs" "https://foo.dev/docs"; Text (lit " ");
        link "Top" "#"; Text (lit " ");
        link "Try it" "https://foo.dev" ] ].


(** *** The Hero Image Selector as the specification words it *)

(** The nodes the visitor meets after the first depth-1 heading. *)
Fixpoint afterFirstH1 (nodes : list Node) : list Node :=
  match nodes with
  | [] => []
  | node :: rest => if isH1 node then rest else afterFirstH1 rest
  end.

(** The first image node of a list of nodes: its url and alt. *)
Fixpoint firstImage (nodes : list Node) : option (jstring * option jstring) :=
  match nodes with
  | [] => None
  | Image url alt :: _ => Some (url, alt)
  | _ :: rest => firstImage rest
  end.

(** After the title, a plain diagram and then a logo. *)
Definition heroDocument : Root :=
  [ heading 1 "Foo";
    Parent Paragraph
      [ Image (lit "diagram.png") (Some (lit "architecture"));
        Image (lit "logo.png") (Some (lit "project logo")) ] ].

(** A document with an image and a depth-2 heading, and no depth-1 heading. *)
Definition untitledDocument : Root :=
  [ Parent Paragraph [Image (lit "logo.png") (Some (lit "project logo"))];
    heading 2 "Usage"; paragraph "Run it." ].


(** *** The Stat Extractor: the two orders of collection *)

Definition statsOf (n : Node) : list Stat := statMatches (extractTextFromNode n) 0.

(** The matches of the paragraphs, in document order. *)
Definition paragraphStats (ast : Root) : list Stat :=
  flat_map statsOf (filter isParagraph (visit ast)).

(** The matches of the list items, in document order. *)
Definition listItemStats (ast : Root) : list Stat :=
  flat_map statsOf (filter isListItem (visit ast)).

(** The matches of the paragraphs and list items taken together in
    document order, the first four: a block earlier in the document
    contributes before a later one. *)
Definition statsInDocumentOrder (ast : Root) : list Stat :=
  firstn 4 (flat_map statsOf (filter (fun n => isParagraph n || isListItem n) (visit ast))).

(** The texts of the text leaves of a document. *)
Definition textLeaves (ast : Root) : list jstring :=
  flat_map (fun n => match n with Text v => [v] | _ => [] end) (visit ast).

(** The shape of a collected pair: the value is a number, optionally
    followed by one of k, K, m, M, b, B and optionally by a plus sign; the
    label is a word. *)
Definition isStatValue (v : jstring) : Prop :=
  exists digits suffix plus,
    v = digits ++ suffix ++ plus
    /\ digits <> [] /\ forallb isDigit digits = true
    /\ (suffix = [] \/ exists c, suffix = [c] /\ memUnit c (lit "kKmMbB") = true)
    /\ (plus = [] \/ plus = lit "+").

Definition isStatLabel (l : jstring) : Prop :=
  l <> [] /\ forallb isWord l = true.

Definition wellShapedStat (s : Stat) : Prop :=
  isStatValue (statValue s) /\ isStatLabel (statLabel s).

(** A list with one item, then a paragraph. *)
Definition statsDocument : Root :=
  [ Parent ListNode [Parent ListItem [paragraph "5 stars"]];
    paragraph "10 users" ].

(** A list item that holds a heading, then a paragraph. *)
Definition headingItemDocument : Root :=
  [ Parent ListNode [Parent ListItem [heading 3 "5 stars"]];
    paragraph "10 users" ].

Definition stat (value label : string) : Stat := mkStat (lit label) (lit value).


(** A document with a screenshot, a statistic, a technology name and a
    testimonial, and no badge. *)
Definition richDocument : Root :=
  [ heading 1 "Foo";
    Parent Paragraph [Image (lit "shot.png") (Some (lit "screenshot"))];
    paragraph "Built with React, loved by 100+ users.";
    Parent Blockquote [paragraph "This tool saved me hours of work - Jane"] ].

(** The tree of [# Widget / ## Constructor / Creates a widget.]. *)
Definition constructorDocument : Root :=
  [ heading 1 "Widget"; heading 2 "Constructor"; paragraph "Creates a widget." ].

(** A document without links whose section "Constructor" comes before its
    section "Installation". *)
Definition constructorInstallDocument : Root :=
  [ heading 1 "Widget";
    heading 2 "Constructor"; paragraph "Creates a widget.";
    heading 2 "Installation"; paragraph "npm i widget" ].

(** A section title that is a string, as the declared type of a section
    has it. *)
Definition stringTitle (s : Section) : Prop := exists t, title s = VStr t.


(** *** The earlier revision of the CTA Resolver

    The repository also holds an earlier revision of the parser, whose CTA
    Resolver tests the label only, has no "deploy" keyword and no
    placeholder test, and points at a fixed anchor. *)
Module Legacy.

Definition demoKeywords : list jstring :=
  [lit "demo"; lit "live"; lit "try"; lit "website"; lit "playground"; lit "app"].

Definition demoLink (links : list Link) : option Link :=
  find (fun link => includesAny demoKeywords (toLowerCase (label link))) links.

Definition isInstallSection (s : Section) : Result bool :=
  t <- titleLower s ;;
  Ok (includes (lit "install") t
      || includes (lit "installation") (id s)
      || includes (lit "setup") (id s)).

Definition extractCTA (links : list Link) (sections : list Section) : Result Link :=
  match demoLink links with
  | Some link => Ok link
  | None =>
      hasInstallation <- someR isInstallSection sections ;;
      if hasInstallation
      then Ok (mkLink (lit "Get Started") (lit "#install"))
      else Ok (githubOrDefault links)
  end.

End Legacy.

(** *** Invariants used in the proofs *)

(** What the priority loop keeps true of [ordered] and [added]. *)
Definition placedInv (ordered : list Section) (added : JsSet) : Prop :=
  NoDup (List.map id ordered)
  /\ forall s, In s ordered -> setHas added (toLowerCase (id s)) = true.

(** An id in lower case, as every id the segmenter produces is. *)
Definition lowerId (s : Section) : Prop := toLowerCase (id s) = id s.

(** The body of the loop of [pushStats]. *)
Definition pushCapped (stats : list Stat) (m : Stat) : list Stat :=
  if Nat.ltb (length stats) 4 then stats ++ [m] else stats.

Ltac distinct_strings :=
  repeat (constructor; [simpl; intuition discriminate|]); constructor.


(** *** The Section Segmenter on one heading and the nodes below it *)

(** What a section in progress contributes when it is saved. *)
Definition savedOf (cur : Section) (nodes : list Node) : list Section :=
  let markdown := join [10; 10]%N (List.map nodeToString nodes) in
  if truthy (trim markdown)
  then [mkSection (id cur) (title cur) (trim markdown)]
  else [].

(** The section of a heading and of the nodes between it and the next
    heading of depth 2 or more. *)
Definition sectionOf (headingNode : Node) (body : list Node) : list Section :=
  savedOf (startSection headingNode) body.

(** The text [nodeToString] gives for a code block. *)
Definition fence (lang : option jstring) (value : jstring) : jstring :=
  lit "```" ++ optStr lang ++ [10%N] ++ value ++ [10%N] ++ lit "```".

(** A string without white space at either end. *)
Definition trimmed (s : jstring) : Prop := trim s = s.

(** The loop of [extractSections] from a section in progress, finished by
    the save after the loop. *)
Definition segRun (acc : list Section) (cur : Section) (nodes rest : list Node)
  : list Section :=
  saveSection (fold_left segStep rest (mkSegState acc (Some cur) nodes false)).


(** A list of nodes that is empty or starts with a heading of depth 2 or
    more: the rest of a document after a section. *)
Definition atSectionStart (rest : list Node) : Prop :=
  match rest with
  | [] => True
  | n :: _ => isH2plus n = true
  end.

(** A document with a preamble and two sections. *)
Definition twoSectionDocument : Root :=
  [ heading 1 "Foo"; paragraph "Does bar.";
    heading 2 "Usage"; paragraph "Run it."; Code (Some (lit "sh")) (lit "foo --help");
    heading 3 "Notes"; paragraph "None." ].


(** *** The greedy placement in two parts *)

(** The sections the keywords place, in placement order, and the sections
    they leave, in document order. *)
Fixpoint greedyPicks (keywords : list jstring) (unplaced : list Section)
  : list Section * list Section :=
  match keywords with
  | [] => ([], unplaced)
  | keyword :: rest =>
      match pickFirst (idMatches keyword) unplaced with
      | Some (s, others) =>
          let '(placed, remaining) := greedyPicks rest others in (s :: placed, remaining)
      | None => greedyPicks rest unplaced
      end
  end.

(** The key under which the orderer files a section. *)
Definition sectionKey (s : Section) : jstring := toLowerCase (id s).

(** What the priority loop keeps true of [ordered] and [added], given the
    sections the map was built from. *)
Definition placedFrom (sections ordered : list Section) (added : JsSet) : Prop :=
  added = List.map sectionKey ordered
  /\ NoDup added
  /\ forall s, In s ordered -> In s sections.

(** Sections none of which matches a keyword of the priority list. *)
Definition unrankedSections : list Section :=
  [ mkSection (lit "notes") (VStr (lit "Notes")) (lit "First.");
    mkSection (lit "credits") (VStr (lit "Credits")) (lit "Second.");
    mkSection (lit "notes") (VStr (lit "Notes")) (lit "Third.") ].


(** *** Title and tagline *)

(** A node the tagline scan passes over after the title: no heading of
    depth 2 or more, and no paragraph with text. *)
Definition passedByTaglineScan (n : Node) : Prop :=
  isH2plus n = false
  /\ (isParagraph n = true -> trim (extractTextFromNode n) = []).

(** A badge, the title, an image, and then the pitch. *)
Definition pitchDocument : Root :=
  [ Parent Paragraph [Image (lit "ci.svg") (Some (lit "build status"))];
    heading 1 "Foo";
    Parent Paragraph [Image (lit "shot.png") (Some (lit "screenshot"))];
    paragraph "  Does bar, fast.  ";
    heading 2 "Usage"; paragraph "Run it." ].


(** *** Call to action and secondary links *)

(** A link that the first rule of the CTA Resolver accepts: an action
    keyword in its label or URL, and a URL that is no anchor. *)
Definition isLiveLink (l : Link) : bool :=
  hasDemoKeyword l && negb (startsWith (lit "#") (href l)).

(** A document whose demo link is an anchor and whose try-it link is live,
    with a heading "Constructor". *)
Definition anchoredDemoDocument : Root :=
  [ heading 1 "Foo";
    Parent Paragraph
      [ link "Demo" "#demo"; Text (lit " ");
        link "Try it" "https://foo.dev"; Text (lit " ");
        link "Source" "https://github.com/a/foo" ];
    heading 2 "Constructor"; paragraph "Creates a widget." ].


(** *** Badges, technologies, testimonials and features *)

(** The key under which the Badge Extractor remembers a label. *)
Definition badgeKey (b : Badge) : jstring := toLowerCase (badgeLabel b).

(** What the three passes of [extractBadges] keep true of the badges and
    of the set of labels seen. *)
Definition badgeInv (st : BadgeState) : Prop :=
  NoDup (List.map badgeKey (fst st))
  /\ forall b, In b (fst st) -> setHas (snd st) (badgeKey b) = true.

(** A feature found by the fallback: a bold span. *)
Definition boldFeature (f : Feature) : Prop :=
  featureTitle f <> [] /\ trimmed (featureTitle f) /\ desc f = None /\ icon f = None.

(** A document without a feature list, with three bold spans. *)
Definition boldDocument : Root :=
  [ heading 1 "Foo";
    Parent Paragraph
      [ Text (lit "It is "); Parent Strong [Text (lit " fast ")];
        Text (lit " and "); Parent Strong [Text (lit "small")];
        Text (lit " and "); Parent Strong [Text (lit "  ")];
        Text (lit " and "); Parent Strong [Text (lit "free")] ] ].


(** *** The page component *)

(** A section that belongs to a first-rank and to a second-rank group. *)
Definition installAndConfigure : list Section :=
  [ mkSection (lit "about") (VStr (lit "About")) (lit "a");
    mkSection (lit "installation-and-configuration")
              (VStr (lit "Installation and configuration")) (lit "b");
    mkSection (lit "usage") (VStr (lit "Usage")) (lit "c") ].

(* ================================================================== *)
(** ** Facts about strings *)
(* ================================================================== *)

Lemma streq_eq (a b : jstring) : streq a b = true <-> a = b.
Proof.
  revert b; induction a as [|x a IH]; intros [|y b]; simpl; split;
    try congruence; try reflexivity.
  - rewrite andb_true_iff, N.eqb_eq, IH. intros [-> ->]. reflexivity.
  - intros [= -> ->]. rewrite N.eqb_refl. simpl. apply IH. reflexivity.
Qed.

Lemma streq_refl (a : jstring) : streq a a = true.
Proof. apply streq_eq. reflexivity. Qed.

Lemma streq_neq (a b : jstring) : streq a b = false <-> a <> b.
Proof.
  split.
  - intros H E. apply streq_eq in E. congruence.
  - intros H. destruct (streq a b) eqn:E; [apply streq_eq in E; contradiction | reflexivity].
Qed.

Lemma startsWith_refl (s : jstring) : startsWith s s = true.
Proof. induction s as [|c s IH]; simpl; [reflexivity | now rewrite N.eqb_refl]. Qed.

Lemma includes_refl (s : jstring) : includes s s = true.
Proof. destruct s; simpl; [reflexivity | now rewrite N.eqb_refl, startsWith_refl]. Qed.

(* ================================================================== *)
(** ** CTA Resolver *)
(* ================================================================== *)

Lemma demoLink_none (links : list Link) :
  (forall l, In l links -> hasDemoKeyword l = true -> href l = lit "#") ->
  demoLink links = None.
Proof.
  induction links as [|l links IH]; intros H; simpl; [reflexivity|].
  destruct (hasDemoKeyword l) eqn:K; simpl.
  - rewrite (H l (or_introl eq_refl) K). simpl.
    apply IH. intros l' Hin. apply H. now right.
  - apply IH. intros l' Hin. apply H. now right.
Qed.

Lemma someR_first {A : Type} (p : A -> Result bool) (pre : list A) (x : A) (post : list A) :
  Forall (fun y => p y = Ok false) pre -> p x = Ok true ->
  someR p (pre ++ x :: post) = Ok true.
Proof.
  induction 1 as [|y pre Hy _ IH]; intros Hx; simpl.
  - now rewrite Hx.
  - rewrite Hy. simpl. now apply IH.
Qed.

Lemma findR_first {A : Type} (p : A -> Result bool) (pre : list A) (x : A) (post : list A) :
  Forall (fun y => p y = Ok false) pre -> p x = Ok true ->
  findR p (pre ++ x :: post) = Ok (Some x).
Proof.
  induction 1 as [|y pre Hy _ IH]; intros Hx; simpl.
  - now rewrite Hx.
  - rewrite Hy. simpl. now apply IH.
Qed.

Lemma isInstallSection_stringTitle (s : Section) :
  stringTitle s -> exists b, isInstallSection s = Ok b.
Proof. intros [t E]. unfold isInstallSection, titleLower. rewrite E. simpl. eauto. Qed.

Lemma first_match_split {A : Type} (p : A -> Result bool) (l : list A) :
  Forall (fun x => exists b, p x = Ok b) l ->
  (exists s, In s l /\ p s = Ok true) ->
  exists before s after,
    l = before ++ s :: after
    /\ Forall (fun x => p x = Ok false) before
    /\ p s = Ok true.
Proof.
  induction 1 as [|x l [b Hx] _ IH]; intros [s [Hin Hs]]; [contradiction|].
  destruct b.
  - exists [], x, l. auto.
  - destruct Hin as [-> | Hin]; [congruence|].
    destruct IH as (before & s' & after & -> & Hb & Hs'); [eauto|].
    exists (x :: before), s', after. auto.
Qed.

Lemma extractCTA_install (links : list Link) (before : list Section) (s : Section)
      (after : list Section) :
  (forall l, In l links -> hasDemoKeyword l = true -> href l = lit "#") ->
  Forall (fun x => isInstallSection x = Ok false) before ->
  isInstallSection s = Ok true ->
  extractCTA links (before ++ s :: after)
  = Ok (mkLink (lit "Get Started") (lit "#" ++ id s)).
Proof.
  intros Hlinks Hbefore Hs. unfold extractCTA.
  rewrite (demoLink_none links Hlinks).
  rewrite someR_first by assumption. simpl.
  rewrite findR_first by assumption. simpl.
  reflexivity.
Qed.

(** With string titles, as the type of a section declares them, the
    resolver finds the first section that matches the installation /
    quick-start keywords whenever one exists. *)
Lemma extractCTA_install_string_titles (links : list Link) (sections : list Section) :
  (forall l, In l links -> hasDemoKeyword l = true -> href l = lit "#") ->
  Forall stringTitle sections ->
  (exists s, In s sections /\ isInstallSection s = Ok true) ->
  exists s, In s sections
            /\ isInstallSection s = Ok true
            /\ extractCTA links sections
               = Ok (mkLink (lit "Get Started") (lit "#" ++ id s)).
Proof.
  intros Hlinks Htitles Hex.
  destruct (@first_match_split _ isInstallSection sections)
    as (before & s & after & -> & Hb & Hs).
  - eapply Forall_impl; [|exact Htitles]. apply isInstallSection_stringTitle.
  - exact Hex.
  - exists s. split; [apply in_or_app; right; now left|]. split; [exact Hs|].
    now apply extractCTA_install.
Qed.

(** C1, at an input on which the CTA Resolver fails.  The end-to-end
    document, which has an Installation section and no link, gets the call
    to action [Get Started -> #installation], as the claim says.  A
    document without any link whose section "Constructor" comes before its
    section "Installation" meets the conditions of the claim as well, yet
    the resolver returns no link for it: the title of the first section is
    the value [sectionMap] inherits under the key "constructor", the
    installation test calls [toLowerCase] on it before it reaches the
    Installation section, and [parseReadme] throws, whatever the platform's
    URL parser does.  With the same two sections in the other order the
    resolver answers [Get Started -> #installation]. *)
Theorem C1_install_section_behind_inherited_title :
  extractCTA (extractLinks endToEndDocument) (extractSections endToEndDocument)
    = Ok (mkLink (lit "Get Started") (lit "#installation"))
  /\ extractLinks constructorInstallDocument = []
  /\ extractSections constructorInstallDocument
     = [ mkSection (lit "constructor") (VInherited (lit "constructor"))
                   (lit "Creates a widget.");
         mkSection (lit "installation") (VStr (lit "Install")) (lit "npm i widget") ]
  /\ extractCTA (extractLinks constructorInstallDocument)
                (extractSections constructorInstallDocument)
     = Throw TypeError
  /\ (forall urlHostname : jstring -> Result jstring,
         parseReadme urlHostname constructorInstallDocument = Throw TypeError)
  /\ extractCTA [] (rev (extractSections constructorInstallDocument))
     = Ok (mkLink (lit "Get Started") (lit "#installation")).
Proof.
  repeat split; try intros urlHostname; vm_compute; reflexivity.
Qed.

(** The end-to-end document has two sections; the fenced block keeps its
    language tag. *)
Example endToEnd_sections :
  extractSections endToEndDocument
  = [ mkSection (lit "features") (VStr (lit "Features")) (lit "- Fast - very fast");
      mkSection (lit "installation") (VStr (lit "Install"))
                (lit "```bash" ++ [10%N] ++ lit "npm i foo" ++ [10%N] ++ lit "```") ].
Proof. vm_compute. reflexivity. Qed.

(** The earlier revision answers the end-to-end sections with the fixed
    anchor "#install". *)
Lemma legacy_cta_fixed_anchor :
  Legacy.extractCTA (extractLinks endToEndDocument) (extractSections endToEndDocument)
  = Ok (mkLink (lit "Get Started") (lit "#install")).
Proof. vm_compute. reflexivity. Qed.

(** A link to a placeholder that carries the keyword "demo" is passed
    over: with a Usage section, then a Setup section, the call to action
    points at the Setup section. *)
Example extractCTA_passes_placeholder_link :
  extractCTA [mkLink (lit "Demo") (lit "#")]
             ([mkSection (lit "usage") (VStr (lit "How it works")) (lit "Run it.")]
                ++ mkSection (lit "setup") (VStr (lit "Install")) (lit "npm i")
                :: [mkSection (lit "license") (VStr (lit "License")) (lit "MIT")])
  = Ok (mkLink (lit "Get Started") (lit "#" ++ lit "setup")).
Proof.
  apply extractCTA_install.
  - intros l [<- | []] _. reflexivity.
  - repeat constructor.
  - reflexivity.
Qed.

(* ================================================================== *)
(** ** Section Orderer *)
(* ================================================================== *)

Lemma setHas_In (s : JsSet) (x : jstring) : setHas s x = true <-> In x s.
Proof.
  unfold setHas. rewrite existsb_exists. split.
  - intros [y [Hy E]]. apply streq_eq in E. now subst.
  - intros H. exists x. split; [assumption | apply streq_refl].
Qed.

Lemma setHas_setAdd (s : JsSet) (x y : jstring) :
  setHas (setAdd s y) x = setHas s x || streq x y.
Proof.
  unfold setAdd. destruct (setHas s y) eqn:E.
  - destruct (streq x y) eqn:Exy; [|now rewrite orb_false_r].
    apply streq_eq in Exy. subst. now rewrite E.
  - unfold setHas. rewrite existsb_app. simpl. now rewrite orb_false_r.
Qed.

Lemma In_mapSet {A : Type} (key : jstring) (v : A) (m : JsMap A) (e : jstring * A) :
  In e (mapSet key v m) -> e = (key, v) \/ In e m.
Proof.
  induction m as [|[k w] m IH]; simpl.
  - intros [<- | []]. now left.
  - destruct (streq k key) eqn:E; simpl.
    + apply streq_eq in E. subst. intros [<- | H]; auto.
    + intros [<- | H]; auto. destruct (IH H); auto.
Qed.

Lemma In_newMap {A : Type} (entries : list (jstring * A)) (e : jstring * A) :
  In e (newMap entries) -> In e entries.
Proof.
  unfold newMap.
  assert (G : forall acc, In e (fold_left (fun m x => mapSet (fst x) (snd x) m) entries acc)
                          -> In e acc \/ In e entries).
  { induction entries as [|[k v] entries IH]; simpl; intros acc H; [now left|].
    destruct (IH _ H) as [H1 | H1]; [|now right; right].
    apply In_mapSet in H1. destruct H1 as [-> | H1]; [right; now left | now left]. }
  intros H. destruct (G [] H) as [[] | H']; assumption.
Qed.

Lemma firstUnplaced_some (added : JsSet) (priorityId : jstring) (entries : JsMap Section)
      (k : jstring) (s : Section) :
  firstUnplaced added priorityId entries = Some (k, s) ->
  In (k, s) entries /\ setHas added k = false.
Proof.
  induction entries as [|[k' s'] entries IH]; simpl; [discriminate|].
  destruct (negb (setHas added k') && matchesPriority k' priorityId) eqn:E.
  - intros [= -> ->]. apply andb_true_iff in E. destruct E as [E _].
    apply negb_true_iff in E. auto.
  - intros H. destruct (IH H). auto.
Qed.


Lemma placeByPriority_inv (m : JsMap Section) (priorities : list jstring) :
  (forall k s, In (k, s) m -> k = toLowerCase (id s)) ->
  forall ordered added,
    placedInv ordered added ->
    placedInv (fst (placeByPriority m priorities ordered added))
              (snd (placeByPriority m priorities ordered added)).
Proof.
  intros Hm. induction priorities as [|p priorities IH]; intros ordered added Inv; simpl.
  - exact Inv.
  - destruct (firstUnplaced added p m) as [[k s]|] eqn:F; [|now apply IH].
    apply firstUnplaced_some in F. destruct F as [Hin Hk].
    pose proof (Hm _ _ Hin) as Ek. destruct Inv as [Hnd Hadded].
    apply IH. split.
    + rewrite map_app. simpl. apply NoDup_app; [assumption | repeat constructor; auto |].
      intros a Ha [<- | []]. apply in_map_iff in Ha. destruct Ha as [s' [E Hs']].
      specialize (Hadded _ Hs'). rewrite E, <- Ek in Hadded. congruence.
    + intros s' Hs'. rewrite setHas_setAdd. apply in_app_or in Hs'.
      destruct Hs' as [Hs' | [<- | []]].
      * now rewrite (Hadded _ Hs').
      * rewrite <- Ek, streq_refl. apply orb_true_r.
Qed.

Lemma NoDup_map_filter {A B : Type} (f : A -> B) (p : A -> bool) (l : list A) :
  NoDup (List.map f l) -> NoDup (List.map f (filter p l)).
Proof.
  induction l as [|x l IH]; simpl; intros H; [constructor|].
  inversion H as [|? ? Hx Hl]; subst. destruct (p x); simpl; [|now apply IH].
  constructor; [|now apply IH].
  intros Hin. apply Hx. apply in_map_iff in Hin. destruct Hin as [y [E Hy]].
  apply filter_In in Hy. apply in_map_iff. exists y. tauto.
Qed.

(** The orderer adds no collision of ids. *)
Lemma orderSections_NoDup (sections : list Section) :
  NoDup (List.map id sections) ->
  NoDup (List.map id (orderSectionsIntelligently sections)).
Proof.
  intros Hnd. unfold orderSectionsIntelligently.
  set (m := newMap (List.map (fun s => (toLowerCase (id s), s)) sections)).
  assert (Hm : forall k s, In (k, s) m -> k = toLowerCase (id s)).
  { intros k s H. apply In_newMap in H. apply in_map_iff in H.
    destruct H as [s' [[= <- <-] _]]. reflexivity. }
  pose proof (@placeByPriority_inv m priorityOrder Hm [] []) as Inv.
  destruct (placeByPriority m priorityOrder [] []) as [ordered added].
  simpl in Inv. destruct Inv as [Hord Hadded].
  { split; [constructor | intros s []]. }
  rewrite map_app. apply NoDup_app.
  - assumption.
  - now apply NoDup_map_filter.
  - intros a Ha Hb. apply in_map_iff in Ha. destruct Ha as [s [E Hs]].
    apply in_map_iff in Hb. destruct Hb as [t [E' Ht]].
    apply filter_In in Ht. destruct Ht as [_ Ht].
    specialize (Hadded _ Hs). rewrite E, <- E' in Hadded. rewrite Hadded in Ht. discriminate.
Qed.


(** C2 (as amended).  When the sections the segmenter produces have
    pairwise distinct ids, the ids of the sections of the result record are
    pairwise distinct: the orderer adds no collision.  (Headings that
    slugify to the same id are not made distinct.) *)
Theorem C2_result_ids_distinct_when_slugs_distinct :
  forall (urlHostname : jstring -> Result jstring) (ast : Root) (r : PageModel),
    parseReadme urlHostname ast = Ok r ->
    NoDup (List.map id (extractSections ast)) ->
    NoDup (List.map id (pmSections r)).
Proof.
  intros urlHostname ast r H Hnd. unfold parseReadme in H.
  destruct (extractCTA (extractLinks ast) (extractSections ast)) as [c|]; [|discriminate].
  simpl in H.
  destruct (extractSecondaryLinks urlHostname (extractLinks ast) c) as [l|]; [|discriminate].
  simpl in H. injection H as <-. simpl.
  now apply orderSections_NoDup.
Qed.

(** A use of C2 on the end-to-end document. *)
Lemma C2_witness :
  exists r, parseReadme rejectingURL endToEndDocument = Ok r
            /\ NoDup (List.map id (pmSections r)).
Proof.
  eexists. split.
  - vm_compute. reflexivity.
  - eapply (@C2_result_ids_distinct_when_slugs_distinct rejectingURL endToEndDocument).
    + vm_compute. reflexivity.
    + vm_compute. distinct_strings.
Defined.

(** C2 fails as stated: two headings "Notes" give two sections with the
    id "notes" in the result record. *)
Lemma C2_counterexample :
  exists r, parseReadme rejectingURL duplicateHeadings = Ok r
            /\ List.map id (pmSections r) = [lit "notes"; lit "notes"]
            /\ ~ NoDup (List.map id (pmSections r)).
Proof.
  eexists. split; [vm_compute; reflexivity|]. split; [vm_compute; reflexivity|].
  intros H. inversion H as [|? ? Hnotin _]. apply Hnotin. now left.
Qed.

(** *** The orderer against the specification's greedy placement *)

Lemma mapSet_fresh {A : Type} (key : jstring) (v : A) (m : JsMap A) :
  ~ In key (List.map fst m) -> mapSet key v m = m ++ [(key, v)].
Proof.
  induction m as [|[k w] m IH]; simpl; intros H; [reflexivity|].
  destruct (streq k key) eqn:E.
  - apply streq_eq in E. tauto.
  - rewrite IH; [reflexivity | tauto].
Qed.

Lemma newMap_distinct_keys {A : Type} (entries : list (jstring * A)) :
  NoDup (List.map fst entries) -> newMap entries = entries.
Proof.
  unfold newMap.
  assert (G : forall acc, NoDup (List.map fst (acc ++ entries)) ->
                          fold_left (fun m x => mapSet (fst x) (snd x) m) entries acc
                          = acc ++ entries).
  { induction entries as [|[k v] entries IH]; simpl; intros acc H.
    - now rewrite app_nil_r.
    - rewrite mapSet_fresh.
      + rewrite IH; rewrite <- app_assoc; [reflexivity | exact H].
      + rewrite map_app in H. simpl in H. apply NoDup_remove_2 in H.
        intros Hin. apply H. apply in_or_app. now left. }
  intros H. now rewrite (G [] H).
Qed.

Lemma lowerUnit_slug (c : char16) : isSlugChar c = true -> lowerUnit c = c.
Proof.
  unfold isSlugChar, lowerUnit, isLower, isDigit, isUpper, inRange. intros H.
  rewrite !orb_true_iff, !andb_true_iff, !N.leb_le, N.eqb_eq in H.
  destruct (N.leb 65 c && N.leb c 90) eqn:E1.
  { rewrite andb_true_iff, !N.leb_le in E1. lia. }
  destruct (N.leb 192 c && N.leb c 222 && negb (N.eqb c 215)) eqn:E2.
  { rewrite !andb_true_iff, !N.leb_le in E2. lia. }
  reflexivity.
Qed.

Lemma slugify_lower (t : jstring) : toLowerCase (slugify t) = slugify t.
Proof.
  unfold slugify, removeClass, toLowerCase.
  induction (replaceWhiteRuns (lit "-") false t) as [|c l IH]; simpl; [reflexivity|].
  destruct (isSlugChar c) eqn:E; simpl; [|exact IH].
  now rewrite IH, lowerUnit_slug.
Qed.


(** Every section of the result of [extractSections] has the id and the
    title that [startSection] gave it. *)
Section SegmenterInvariant.

Variable P : jstring -> Value -> Prop.
Hypothesis P_start : forall node, P (id (startSection node)) (title (startSection node)).

Let good (s : Section) : Prop := P (id s) (title s).

Lemma saveSection_invariant (st : SegState) :
  Forall good (sections st) ->
  (forall c, currentSection st = Some c -> good c) ->
  Forall good (saveSection st).
Proof.
  intros Hs Hc. unfold saveSection. destruct (currentSection st) as [cur|]; [|assumption].
  destruct (truthy _); [|assumption].
  apply Forall_app. split; [assumption|]. constructor; [|constructor].
  exact (Hc cur eq_refl).
Qed.

Lemma extractSections_invariant (ast : Root) :
  Forall (fun s => P (id s) (title s)) (extractSections ast).
Proof.
  unfold extractSections.
  assert (G : forall st,
             Forall good (sections st) ->
             (forall c, currentSection st = Some c -> good c) ->
             let st' := fold_left segStep ast st in
             Forall good (sections st')
             /\ (forall c, currentSection st' = Some c -> good c)).
  { induction ast as [|node ast IH]; intros st Hs Hc; simpl; [tauto|].
    apply IH; unfold segStep.
    - destruct (skipUntilFirstH2 st && negb (isH2plus node)); [assumption|].
      destruct (isH2plus node); simpl; [now apply saveSection_invariant|].
      destruct (currentSection st); assumption.
    - destruct (skipUntilFirstH2 st && negb (isH2plus node)); [assumption|].
      destruct (isH2plus node); simpl.
      + intros c [= <-]. apply P_start.
      + destruct (currentSection st) eqn:E; simpl; intros c Hc'.
        * injection Hc' as <-. now apply Hc.
        * apply Hc. congruence. }
  destruct (G (mkSegState [] None [] true)) as [Hs Hc]; simpl;
    [constructor | discriminate |].
  now apply saveSection_invariant.
Qed.

End SegmenterInvariant.

Lemma extractSections_lowerId (ast : Root) : Forall lowerId (extractSections ast).
Proof.
  apply (extractSections_invariant (fun i _ => toLowerCase i = i)).
  intros node. apply slugify_lower.
Qed.

Lemma sectionMapGet_inherited (key property : jstring) :
  sectionMapGet key = Some (VInherited property) ->
  property = key /\ In key objectPrototype.
Proof.
  unfold sectionMapGet. destruct (assoc key sectionMap); [discriminate|].
  destruct (existsb (streq key) objectPrototype) eqn:E; [|discriminate].
  intros [= <-]. split; [reflexivity|].
  apply existsb_exists in E. destruct E as [k [Hk E]]. apply streq_eq in E. now subst.
Qed.

(** A section title is a string, unless the heading spells a property that
    [sectionMap] inherits. *)
Lemma extractSections_titles (ast : Root) :
  Forall (fun s => stringTitle s
                   \/ exists property, title s = VInherited property
                                        /\ In property objectPrototype)
         (extractSections ast).
Proof.
  apply (extractSections_invariant
           (fun _ t => (exists x, t = VStr x)
                       \/ exists property, t = VInherited property
                                            /\ In property objectPrototype)).
  intros node. unfold startSection. simpl.
  destruct (sectionMapGet _) as [[x | property]|] eqn:E; eauto.
  apply sectionMapGet_inherited in E. destruct E as [-> E]. right. eauto.
Qed.

Lemma matchesPriority_idMatches (s : Section) (priorityId : jstring) :
  matchesPriority (id s) priorityId = idMatches priorityId s.
Proof.
  unfold matchesPriority, idMatches.
  destruct (streq (id s) priorityId) eqn:E; [|reflexivity].
  apply streq_eq in E. rewrite E, includes_refl. reflexivity.
Qed.

Lemma firstUnplaced_find (added : JsSet) (priorityId : jstring) (l : list Section) :
  firstUnplaced added priorityId (List.map (fun s => (id s, s)) l)
  = option_map (fun s => (id s, s))
      (find (fun s => negb (setHas added (id s)) && idMatches priorityId s) l).
Proof.
  induction l as [|s l IH]; simpl; [reflexivity|].
  rewrite matchesPriority_idMatches.
  destruct (negb (setHas added (id s)) && idMatches priorityId s); [reflexivity | exact IH].
Qed.

Lemma pickFirst_filter (keep q : Section -> bool) (l : list Section) :
  NoDup (List.map id l) ->
  pickFirst q (filter keep l)
  = option_map
      (fun s => (s, filter (fun t => keep t && negb (streq (id t) (id s))) l))
      (find (fun s => keep s && q s) l).
Proof.
  induction l as [|x l IH]; simpl; intros Hnd; [reflexivity|].
  inversion Hnd as [|? ? Hx Hl]; subst.
  assert (Hother : forall t, In t l -> streq (id t) (id x) = false).
  { intros t Ht. apply streq_neq. intros E. apply Hx. rewrite <- E. now apply in_map. }
  destruct (keep x) eqn:Kx; simpl.
  - destruct (q x) eqn:Qx; simpl.
    + rewrite streq_refl. simpl. f_equal. f_equal. apply filter_ext_in.
      intros t Ht. rewrite (Hother t Ht). now rewrite andb_true_r.
    + rewrite (IH Hl). destruct (find (fun s => keep s && q s) l) as [y|] eqn:F; simpl;
        [|reflexivity].
      apply find_some in F. destruct F as [Hy _].
      rewrite ?Kx. simpl.
      assert (E : streq (id x) (id y) = false).
      { apply streq_neq. intros E. apply Hx. rewrite E. now apply in_map. }
      now rewrite E.
  - rewrite (IH Hl). destruct (find (fun s => keep s && q s) l) as [y|]; simpl;
      [|reflexivity].
    now rewrite ?Kx.
Qed.

Lemma placeByPriority_greedy (l : list Section) (priorities : list jstring) :
  NoDup (List.map id l) ->
  forall ordered added,
    let '(ordered', added') :=
      placeByPriority (List.map (fun s => (id s, s)) l) priorities ordered added in
    ordered' ++ filter (fun s => negb (setHas added' (id s))) l
    = greedyOrder priorities ordered (filter (fun s => negb (setHas added (id s))) l).
Proof.
  intros Hnd. induction priorities as [|p priorities IH]; intros ordered added; simpl.
  - reflexivity.
  - rewrite firstUnplaced_find. rewrite pickFirst_filter by exact Hnd.
    destruct (find _ l) as [s|]; simpl; [|apply IH].
    specialize (IH (ordered ++ [s]) (setAdd added (id s))).
    destruct (placeByPriority _ priorities (ordered ++ [s]) (setAdd added (id s)))
      as [ordered' added'].
    rewrite IH. f_equal. apply filter_ext. intros t.
    rewrite setHas_setAdd. now rewrite negb_orb.
Qed.

(** On sections with pairwise distinct lower-case ids the orderer is the
    greedy placement of the specification. *)
Lemma orderSections_greedy (l : list Section) :
  Forall lowerId l -> NoDup (List.map id l) ->
  orderSectionsIntelligently l = greedyOrder priorityOrder [] l.
Proof.
  intros Hlow Hnd. unfold orderSectionsIntelligently.
  assert (E : List.map (fun s => (toLowerCase (id s), s)) l
              = List.map (fun s => (id s, s)) l).
  { apply map_ext_in. intros s Hs. rewrite Forall_forall in Hlow. now rewrite (Hlow s Hs). }
  rewrite E, newMap_distinct_keys by (now rewrite map_map).
  pose proof (@placeByPriority_greedy l priorityOrder Hnd [] []) as G.
  destruct (placeByPriority _ priorityOrder [] []) as [ordered added].
  simpl filter in G at 2.
  assert (F : filter (fun _ : Section => true) l = l).
  { clear. induction l; simpl; congruence. }
  change (fun s : Section => negb (setHas [] (id s))) with (fun _ : Section => true) in G.
  rewrite F in G. rewrite <- G. f_equal. apply filter_ext_in.
  intros s Hs. rewrite Forall_forall in Hlow. now rewrite (Hlow s Hs).
Qed.

Lemma pickFirst_perm {A : Type} (p : A -> bool) (l : list A) (x : A) (rest : list A) :
  pickFirst p l = Some (x, rest) -> Permutation l (x :: rest).
Proof.
  revert x rest. induction l as [|y l IH]; simpl; intros x rest; [discriminate|].
  destruct (p y).
  - intros [= -> ->]. apply Permutation_refl.
  - destruct (pickFirst p l) as [[z rest']|]; [|discriminate].
    intros [= -> <-]. rewrite (IH _ _ eq_refl). apply perm_swap.
Qed.

Lemma greedyOrder_perm (keywords : list jstring) (placed unplaced : list Section) :
  Permutation (placed ++ unplaced) (greedyOrder keywords placed unplaced).
Proof.
  revert placed unplaced. induction keywords as [|k keywords IH]; intros placed unplaced; simpl.
  - apply Permutation_refl.
  - destruct (pickFirst (idMatches k) unplaced) as [[s others]|] eqn:E; [|apply IH].
    rewrite <- IH, <- app_assoc. simpl.
    apply Permutation_app_head. now apply pickFirst_perm with (p := idMatches k).
Qed.




(* ================================================================== *)
(** ** Tagline Extractor *)
(* ================================================================== *)

Lemma orElse_cases (a b : jstring) :
  (a = [] /\ orElse a b = b) \/ (a <> [] /\ orElse a b = a).
Proof. destruct a; [left | right]; split; try reflexivity. discriminate. Qed.

(** C5.  The tagline has at most 160 code units and is never empty; a
    selected tagline of more than 160 code units is cut to its first 157
    code units followed by three full stops, 160 code units in all; a
    shorter selection is kept as it is; when nothing is selected the
    placeholder sentence, of 42 code units, is returned. *)
Theorem C5_tagline_bounded :
  forall ast : Root,
    length (extractTagline ast) <= 160
    /\ extractTagline ast <> []
    /\ (160 < length (selectTagline ast) ->
        extractTagline ast = firstn 157 (selectTagline ast) ++ [46; 46; 46]%N
        /\ length (extractTagline ast) = 160)
    /\ (length (selectTagline ast) <= 160 -> selectTagline ast <> [] ->
        extractTagline ast = selectTagline ast)
    /\ (selectTagline ast = [] ->
        extractTagline ast = lit "A great project that solves real problems."
        /\ length (extractTagline ast) = 42).
Proof.
  intros ast. unfold extractTagline, substring0.
  change (lit "...") with [46; 46; 46]%N.
  change taglinePlaceholder with (lit "A great project that solves real problems.").
  set (placeholder := lit "A great project that solves real problems.").
  set (t := selectTagline ast).
  assert (Hp : length placeholder = 42) by reflexivity.
  destruct (Nat.ltb 160 (length t)) eqn:E.
  - apply Nat.ltb_lt in E.
    assert (L : length (firstn 157 t ++ [46; 46; 46]%N) = 160).
    { rewrite length_app, length_firstn.
      change (length [46; 46; 46]%N) with 3. lia. }
    destruct (orElse_cases (firstn 157 t ++ [46; 46; 46]%N) placeholder)
      as [[Hn _] | [Hn ->]].
    { rewrite Hn in L. discriminate. }
    assert (Hne : t <> []) by (intros H0; rewrite H0 in E; simpl in E; lia).
    split; [lia|]. split; [exact Hn|]. split; [intros _; split; [reflexivity | exact L]|].
    split; [intros; lia | intros H0; contradiction].
  - apply Nat.ltb_ge in E.
    destruct (orElse_cases t placeholder) as [[Hn ->] | [Hn ->]].
    + split; [lia|]. split; [discriminate|]. split; [intros; lia|].
      split; [intros _ H0; contradiction | intros _; split; [reflexivity | exact Hp]].
    + split; [exact E|]. split; [exact Hn|]. split; [intros; lia|].
      split; [reflexivity | intros H0; contradiction].
Qed.

(** A use of C5: a pitch of 170 letters "a" is cut to 157 of them and
    three full stops. *)
Lemma C5_witness :
  160 < length (selectTagline longTaglineDocument)
  /\ extractTagline longTaglineDocument = repeat 97%N 157 ++ [46; 46; 46]%N
  /\ length (extractTagline longTaglineDocument) = 160.
Proof.
  assert (H : 160 < length (selectTagline longTaglineDocument))
    by (vm_compute; lia).
  split; [exact H|].
  exact (proj1 (proj2 (proj2 (C5_tagline_bounded longTaglineDocument))) H).
Defined.

(* ================================================================== *)
(** ** Link Collector and Secondary Link Curator *)
(* ================================================================== *)

Lemma In_firstn {A : Type} (n : nat) (l : list A) (x : A) : In x (firstn n l) -> In x l.
Proof.
  revert l. induction n as [|n IH]; intros [|y l]; simpl; try tauto.
  intros [-> | H]; auto.
Qed.

Lemma In_sliceTo {A : Type} (e : Z) (l : list A) (x : A) : In x (sliceTo e l) -> In x l.
Proof. unfold sliceTo. destruct (e <? 0)%Z; apply In_firstn. Qed.

Lemma length_sliceTo {A : Type} (e : Z) (l : list A) :
  (0 <= e)%Z -> length (sliceTo e l) <= Z.to_nat e.
Proof.
  intros H. unfold sliceTo. destruct (Z.ltb_spec e 0); [lia|]. apply firstn_le_length.
Qed.

Lemma length_sliceTo_le {A : Type} (e : Z) (l : list A) :
  length (sliceTo e l) <= length l.
Proof. unfold sliceTo. destruct (e <? 0)%Z; rewrite length_firstn; lia. Qed.

(** Every link the collector returns has a label and a target. *)
Lemma extractLinks_label (ast : Root) (l : Link) :
  In l (extractLinks ast) -> truthy (label l) = true /\ truthy (href l) = true.
Proof.
  unfold extractLinks. rewrite in_flat_map. intros [n [_ H]].
  destruct n as [| | | |[] cs]; simpl in H; try contradiction.
  destruct (truthy url) eqn:U; simpl in H; [|contradiction].
  destruct (truthy (concat (List.map extractTextFromNode cs))) eqn:T; simpl in H;
    [|contradiction].
  destruct H as [<- | []]. simpl. auto.
Qed.

Lemma keepLink_true (cta l : Link) :
  keepLink cta l = true -> href l <> href cta /\ href l <> lit "#".
Proof.
  unfold keepLink.
  destruct (streq (href l) (href cta)) eqn:E1; simpl; [discriminate|].
  destruct (streq (href l) (lit "#")) eqn:E2; simpl; [discriminate|].
  intros _. split; now apply streq_neq.
Qed.

(** The curated links are links of the document that passed the filter,
    and there are at most three of them. *)
Lemma curateLinks_spec (links : list Link) (cta : Link) :
  length (curateLinks links cta) <= 3
  /\ forall x, In x (curateLinks links cta) ->
               In (snd x) links /\ keepLink cta (snd x) = true.
Proof.
  unfold curateLinks.
  set (filtered := filter (fun l => keepLink cta (snd l)) (indexed links)).
  set (github := find (fun l => includes (lit "github.com") (href (snd l))) filtered).
  set (social := filter (fun l => isSocial (snd l)) filtered).
  set (others := filter _ filtered).
  set (r1 := match github with
             | Some g => if negb (streq (href (snd g)) (href cta)) then [g] else []
             | None => []
             end).
  assert (Hf : forall x, In x filtered -> In (snd x) links /\ keepLink cta (snd x) = true).
  { intros [i l] H. apply filter_In in H. destruct H as [H K]. split; [|exact K].
    eapply in_combine_r. exact H. }
  assert (L1 : length r1 <= 1).
  { unfold r1. destruct github as [g|]; [destruct (negb _)|]; simpl; lia. }
  assert (I1 : forall x, In x r1 -> In x filtered).
  { unfold r1. intros x H. destruct github as [g|] eqn:G; [|contradiction].
    destruct (negb _); [|contradiction]. destruct H as [<- | []].
    apply find_some in G. tauto. }
  assert (L2 : length (r1 ++ sliceTo 2 social) <= 3).
  { rewrite length_app. pose proof (@length_sliceTo _ 2%Z social). lia. }
  split.
  - etransitivity; [apply length_sliceTo_le|].
    rewrite length_app.
    pose proof (@length_sliceTo _ (3 - Z.of_nat (length (r1 ++ sliceTo 2 social)))%Z others).
    lia.
  - intros x H. apply Hf. apply In_sliceTo in H. apply in_app_or in H.
    destruct H as [H | H].
    + apply in_app_or in H. destruct H as [H | H]; [now apply I1|].
      apply In_sliceTo in H. apply filter_In in H. tauto.
    + apply In_sliceTo in H. apply filter_In in H. tauto.
Qed.

Lemma mapR_labelled (urlHostname : jstring -> Result jstring) (l : list (nat * Link)) :
  Forall (fun x => truthy (label (snd x)) = true) l ->
  mapR (fun x => displayLink urlHostname (snd x)) l
  = Ok (List.map (fun x => mkLink (label (snd x)) (href (snd x))) l).
Proof.
  induction 1 as [|x l Hx _ IH]; simpl; [reflexivity|].
  unfold displayLink at 1. rewrite Hx. simpl. rewrite IH. reflexivity.
Qed.

(** On the links of a document the curator never reaches the URL parser:
    it returns, whatever the parser would do. *)
Lemma extractSecondaryLinks_total (urlHostname : jstring -> Result jstring)
      (ast : Root) (cta : Link) :
  extractSecondaryLinks urlHostname (extractLinks ast) cta
  = Ok (List.map (fun x => mkLink (label (snd x)) (href (snd x)))
                 (curateLinks (extractLinks ast) cta)).
Proof.
  unfold extractSecondaryLinks. apply mapR_labelled. apply Forall_forall.
  intros x Hx. apply curateLinks_spec in Hx. destruct Hx as [Hx _].
  now apply extractLinks_label in Hx.
Qed.

(** C6.  For every document and every call to action the curator returns a
    list of at most 4 links, none of which has the href of the call to
    action or the bare placeholder ["#"]; so it is for the [secondaryLinks]
    and the [cta] of every result record. *)
Theorem C6_secondary_links_exclude_cta :
  forall (urlHostname : jstring -> Result jstring) (ast : Root),
    (forall cta : Link,
        exists links,
          extractSecondaryLinks urlHostname (extractLinks ast) cta = Ok links
          /\ length links <= 4
          /\ forall l, In l links -> href l <> href cta /\ href l <> lit "#")
    /\
    (forall r : PageModel,
        parseReadme urlHostname ast = Ok r ->
        length (secondaryLinks r) <= 4
        /\ forall l, In l (secondaryLinks r) ->
                     href l <> href (cta r) /\ href l <> lit "#").
Proof.
  intros urlHostname ast.
  assert (G : forall cta : Link,
             exists links,
               extractSecondaryLinks urlHostname (extractLinks ast) cta = Ok links
               /\ length links <= 4
               /\ forall l, In l links -> href l <> href cta /\ href l <> lit "#").
  { intros c. eexists. split; [apply extractSecondaryLinks_total|].
    destruct (curateLinks_spec (extractLinks ast) c) as [Hlen Hin]. split.
    - rewrite length_map. lia.
    - intros l Hl. apply in_map_iff in Hl. destruct Hl as [x [<- Hx]]. simpl.
      apply keepLink_true. now apply Hin. }
  split; [exact G|].
  intros r H. unfold parseReadme in H.
  destruct (extractCTA (extractLinks ast) (extractSections ast)) as [c|]; [|discriminate].
  simpl in H. destruct (G c) as [links [E P]]. rewrite E in H. simpl in H.
  injection H as <-. simpl. exact P.
Qed.

(** A use of C6 on a document with six links. *)
Lemma C6_witness :
  exists r, parseReadme rejectingURL linkedDocument = Ok r
            /\ List.map label (secondaryLinks r) = [lit "Source"; lit "Twitter"; lit "Docs"]
            /\ length (secondaryLinks r) <= 4
            /\ forall l, In l (secondaryLinks r) ->
                         href l <> href (cta r) /\ href l <> lit "#".
Proof.
  eexists. split; [vm_compute; reflexivity|]. split; [vm_compute; reflexivity|].
  apply (proj2 (C6_secondary_links_exclude_cta rejectingURL linkedDocument)).
  vm_compute. reflexivity.
Defined.

(* ================================================================== *)
(** ** Assembler: the fields of the result record *)
(* ================================================================== *)

Lemma parseReadme_fields (urlHostname : jstring -> Result jstring) (ast : Root)
      (r : PageModel) :
  parseReadme urlHostname ast = Ok r ->
  tagline r = extractTagline ast
  /\ pmSections r = orderSectionsIntelligently (extractSections ast)
  /\ badges r = Some (extractBadges ast (extractLinks ast))
  /\ heroImage r = extractHeroImage ast
  /\ stats r = extractStats ast
  /\ techStack r = extractTechStack ast
  /\ testimonials r = extractTestimonials ast.
Proof.
  unfold parseReadme. intros H.
  destruct (extractCTA (extractLinks ast) (extractSections ast)) as [c|]; [|discriminate].
  simpl in H.
  destruct (extractSecondaryLinks urlHostname (extractLinks ast) c) as [l|]; [|discriminate].
  simpl in H. injection H as <-. simpl. repeat split; reflexivity.
Qed.

(* ================================================================== *)
(** ** Hero Image Selector *)
(* ================================================================== *)

Lemma heroStep_found (nodes : list Node) (foundH1 : bool) (img : jstring * option jstring) :
  snd (fold_left heroStep nodes (foundH1, Some img)) = Some img.
Proof.
  revert foundH1. induction nodes as [|n nodes IH]; intros foundH1; simpl; [reflexivity|].
  destruct (isH1 n); [apply IH|]. destruct n; apply IH.
Qed.

Lemma heroStep_after (nodes : list Node) :
  snd (fold_left heroStep nodes (true, None)) = firstImage nodes.
Proof.
  induction nodes as [|n nodes IH]; simpl; [reflexivity|].
  destruct n as [v | url alt | lang v | | k cs]; simpl; try exact IH.
  - match goal with |- context [if ?b then _ else _] => destruct b end;
      apply heroStep_found.
  - destruct k as [d | | | | | | |]; simpl; try exact IH.
    destruct (Nat.eqb d 1); exact IH.
Qed.

Lemma heroStep_before (nodes : list Node) :
  snd (fold_left heroStep nodes (false, None)) = firstImage (afterFirstH1 nodes).
Proof.
  induction nodes as [|n nodes IH]; simpl; [reflexivity|].
  destruct (isH1 n) eqn:E; [apply heroStep_after|].
  destruct n; exact IH.
Qed.

Lemma afterFirstH1_none (nodes : list Node) :
  (forall n, In n nodes -> isH1 n = false) -> afterFirstH1 nodes = [].
Proof.
  induction nodes as [|n nodes IH]; simpl; intros H; [reflexivity|].
  rewrite (H n (or_introl eq_refl)). apply IH. intros m Hm. apply H. now right.
Qed.

(** C7.  The hero image is decided by the first image node the visitor
    meets after the first depth-1 heading, whatever its alt text: it is
    that image when it has a url (its alt text defaulting to "Hero image"),
    and there is no hero image otherwise.  So a selected hero image is
    always that first image, never a later one with a better alt text. *)
Theorem C7_hero_image_is_first_image_after_h1 :
  forall ast : Root,
    extractHeroImage ast
    = match firstImage (afterFirstH1 (visit ast)) with
      | Some (url, alt) =>
          if truthy url
          then Some (mkHeroImage url (orElse (optStr alt) (lit "Hero image")))
          else None
      | None => None
      end
    /\
    forall h : HeroImage,
      extractHeroImage ast = Some h ->
      exists alt, firstImage (afterFirstH1 (visit ast)) = Some (heroUrl h, alt)
                  /\ heroAlt h = orElse (optStr alt) (lit "Hero image").
Proof.
  intros ast. unfold extractHeroImage. rewrite heroStep_before.
  split; [reflexivity|].
  intros h. destruct (firstImage (afterFirstH1 (visit ast))) as [[url alt]|]; [|discriminate].
  destruct (truthy url); [|discriminate].
  intros [= <-]. exists alt. simpl. auto.
Qed.

(** A use of C7: the plain diagram that comes first is selected, not the
    logo that follows it. *)
Lemma C7_witness :
  extractHeroImage heroDocument
    = Some (mkHeroImage (lit "diagram.png") (lit "architecture"))
  /\ exists alt, firstImage (afterFirstH1 (visit heroDocument))
                 = Some (lit "diagram.png", alt)
                 /\ lit "architecture" = orElse (optStr alt) (lit "Hero image").
Proof.
  split; [vm_compute; reflexivity|].
  apply (proj2 (C7_hero_image_is_first_image_after_h1 heroDocument)
               (mkHeroImage (lit "diagram.png") (lit "architecture"))).
  vm_compute. reflexivity.
Defined.

(** C10.  A document without a depth-1 heading has no hero image, images or
    not: the extractor returns nothing, and the field of every result
    record is empty. *)
Theorem C10_no_h1_no_hero_image :
  forall (urlHostname : jstring -> Result jstring) (ast : Root),
    (forall n, In n (visit ast) -> isH1 n = false) ->
    extractHeroImage ast = None
    /\ forall r, parseReadme urlHostname ast = Ok r -> heroImage r = None.
Proof.
  intros urlHostname ast H.
  assert (E : extractHeroImage ast = None).
  { unfold extractHeroImage. rewrite heroStep_before, (afterFirstH1_none _ H). reflexivity. }
  split; [exact E|].
  intros r Hr. apply parseReadme_fields in Hr. rewrite <- E. tauto.
Qed.

(** A use of C10: an image, a depth-2 heading, no depth-1 heading. *)
Lemma C10_witness :
  extractHeroImage untitledDocument = None
  /\ forall r, parseReadme rejectingURL untitledDocument = Ok r -> heroImage r = None.
Proof.
  apply (C10_no_h1_no_hero_image rejectingURL untitledDocument).
  intros n Hn. vm_compute in Hn.
  repeat (destruct Hn as [<- | Hn]; [reflexivity|]). contradiction.
Defined.

(* ================================================================== *)
(** ** Stat Extractor *)
(* ================================================================== *)


Lemma pushCapped_firstn (all : list Stat) (m : Stat) :
  pushCapped (firstn 4 all) m = firstn 4 (all ++ [m]).
Proof.
  unfold pushCapped. rewrite firstn_app, length_firstn.
  destruct (Nat.ltb_spec (Nat.min 4 (length all)) 4) as [H | H].
  - rewrite (firstn_all2 all) by lia.
    replace (4 - length all) with (S (3 - length all)) by lia.
    simpl. now rewrite firstn_nil.
  - replace (4 - length all) with 0 by lia. simpl. now rewrite app_nil_r.
Qed.

Lemma pushStats_firstn (all : list Stat) (text : jstring) :
  pushStats (firstn 4 all) text = firstn 4 (all ++ statMatches text 0).
Proof.
  unfold pushStats. change (fun stats m => if Nat.ltb (length stats) 4 then stats ++ [m] else stats)
    with pushCapped.
  revert all. induction (statMatches text 0) as [|m ms IH]; intros all; cbn [fold_left].
  - now rewrite app_nil_r.
  - rewrite pushCapped_firstn, IH, <- app_assoc. reflexivity.
Qed.

Lemma collectStats_firstn (test : Node -> bool) (nodes : list Node) (all : list Stat) :
  fold_left
    (fun stats node => if test node then pushStats stats (extractTextFromNode node) else stats)
    nodes (firstn 4 all)
  = firstn 4 (all ++ flat_map statsOf (filter test nodes)).
Proof.
  revert all. induction nodes as [|n nodes IH]; intros all; cbn [fold_left filter].
  - cbn. now rewrite app_nil_r.
  - destruct (test n); [|apply IH].
    cbn [flat_map]. rewrite pushStats_firstn, IH, <- app_assoc. reflexivity.
Qed.

Lemma firstn_firstn_same {A : Type} (n : nat) (l : list A) :
  firstn n (firstn n l) = firstn n l.
Proof. apply firstn_all2. apply firstn_le_length. Qed.

(** The pattern on a sentence: "1.2M" is read from its digit "2" on. *)
Example stat_pattern_examples :
  statMatches (lit "100+ stars, 50k downloads and 1.2M users") 0
  = [stat "100+" "stars"; stat "50k" "downloads"; stat "2M" "users"].
Proof. vm_compute. reflexivity. Qed.

Lemma takeWhile_forallb (p : char16 -> bool) (s : jstring) :
  forallb p (takeWhile p s) = true.
Proof.
  induction s as [|c s IH]; simpl; [reflexivity|].
  destruct (p c) eqn:E; simpl; [now rewrite E | reflexivity].
Qed.

Lemma statAt_shape (s value label : jstring) (n : nat) :
  statAt s = Some (value, label, n) -> isStatValue value /\ isStatLabel label.
Proof.
  unfold statAt.
  destruct (takeWhile isDigit s) as [|d ds] eqn:D; [discriminate|].
  set (s1 := skipn (length (d :: ds)) s).
  set (suffix := match s1 with
                 | c :: _ => if memUnit c [107; 75; 109; 77; 98; 66]%N then [c] else []
                 | [] => []
                 end).
  set (s2 := skipn (length suffix) s1).
  set (plus := match s2 with
               | c :: _ => if N.eqb c 43 then [c] else []
               | [] => []
               end).
  set (s3 := skipn (length plus) s2).
  destruct (takeWhile isWhite s3) as [|w ws]; [discriminate|].
  destruct (takeWhile isWord (skipn (length (w :: ws)) s3)) as [|l ls] eqn:L;
    [discriminate|].
  intros [= <- <- _]. split.
  - exists (d :: ds), suffix, plus. split; [reflexivity|]. split; [discriminate|].
    split; [rewrite <- D; apply takeWhile_forallb|]. split.
    + unfold suffix. destruct s1 as [|c s1']; [now left|].
      destruct (memUnit c [107; 75; 109; 77; 98; 66]%N) eqn:M; [|now left].
      right. exists c. split; [reflexivity | exact M].
    + unfold plus. destruct s2 as [|c s2']; [now left|].
      destruct (N.eqb c 43) eqn:P; [|now left].
      apply N.eqb_eq in P. subst. now right.
  - split; [discriminate|]. rewrite <- L. apply takeWhile_forallb.
Qed.

Lemma statMatches_shape (s : jstring) (skip : nat) :
  Forall wellShapedStat (statMatches s skip).
Proof.
  revert skip. induction s as [|c s IH]; intros skip; simpl; [constructor|].
  destruct skip as [|k]; [|apply IH].
  destruct (statAt (c :: s)) as [[[value label] [|n]]|] eqn:E; try apply IH.
  constructor; [|apply IH]. apply statAt_shape in E. exact E.
Qed.

Lemma collected_stats_shape (test : Node -> bool) (nodes : list Node) :
  Forall wellShapedStat (flat_map statsOf (filter test nodes)).
Proof.
  apply Forall_forall. intros st H. apply in_flat_map in H. destruct H as [n [_ H]].
  pose proof (statMatches_shape (extractTextFromNode n) 0) as F.
  rewrite Forall_forall in F. now apply F.
Qed.

(** C8 (as amended).  The pattern is applied to the text of every
    paragraph, in document order, and then to the text of every list item,
    in document order; the first four matches of that sequence are the
    result, and there is no result when there is no match.  So at most four
    pairs are collected over the whole document, the pairs of the
    paragraphs precede those of the list items, and every pair is a number
    (with its optional letter and plus sign) and a word. *)
Theorem C8_stats_paragraphs_then_list_items :
  forall ast : Root,
    extractStats ast
    = match paragraphStats ast ++ listItemStats ast with
      | [] => None
      | all => Some (firstn 4 all)
      end
    /\ forall stats, extractStats ast = Some stats ->
                     1 <= length stats <= 4 /\ Forall wellShapedStat stats.
Proof.
  intros ast.
  assert (E : extractStats ast
              = match paragraphStats ast ++ listItemStats ast with
                | [] => None
                | all => Some (firstn 4 all)
                end).
  { assert (S : fold_left
                  (fun stats node =>
                     if isListItem node
                     then pushStats stats (extractTextFromNode node) else stats)
                  (visit ast)
                  (fold_left
                     (fun stats node =>
                        if isParagraph node
                        then pushStats stats (extractTextFromNode node) else stats)
                     (visit ast) [])
                = firstn 4 (paragraphStats ast ++ listItemStats ast)).
    { change (@nil Stat) with (firstn 4 (@nil Stat)).
      rewrite !collectStats_firstn. reflexivity. }
    unfold extractStats. cbv zeta. rewrite S, firstn_firstn_same.
    destruct (paragraphStats ast ++ listItemStats ast) as [|m ms]; reflexivity. }
  split; [exact E|].
  intros stats H. rewrite E in H.
  destruct (paragraphStats ast ++ listItemStats ast) as [|m ms] eqn:A; [discriminate|].
  assert (Hs : stats = firstn 4 (m :: ms)) by congruence.
  split; [rewrite Hs, length_firstn; cbn [length]; lia|].
  apply Forall_forall. intros st Hst. rewrite Hs, <- A in Hst. apply In_firstn in Hst.
  apply in_app_or in Hst.
  pose proof (collected_stats_shape isParagraph (visit ast)) as F1.
  pose proof (collected_stats_shape isListItem (visit ast)) as F2.
  rewrite Forall_forall in F1, F2. destruct Hst; [now apply F1 | now apply F2].
Qed.

(** A use of C8 on the list item and the paragraph. *)
Lemma C8_witness :
  extractStats statsDocument
    = Some [stat "5" "stars"; stat "10" "users"; stat "5" "stars"]
  /\ 1 <= length [stat "5" "stars"; stat "10" "users"; stat "5" "stars"] <= 4
  /\ Forall wellShapedStat [stat "5" "stars"; stat "10" "users"; stat "5" "stars"].
Proof.
  split; [vm_compute; reflexivity|].
  apply (proj2 (C8_stats_paragraphs_then_list_items statsDocument)
               [stat "5" "stars"; stat "10" "users"; stat "5" "stars"]).
  vm_compute. reflexivity.
Defined.

(** C8 fails as stated.  In the first document the one occurrence of
    "5 stars" yields two pairs, the second of them after the pair of the
    paragraph that follows the list.  In the second document the list item
    comes first and its pair is collected last. *)
Lemma C8_counterexample :
  (textLeaves statsDocument = [lit "5 stars"; lit "10 users"]
   /\ extractStats statsDocument
      = Some [stat "5" "stars"; stat "10" "users"; stat "5" "stars"])
  /\ (statsInDocumentOrder headingItemDocument = [stat "5" "stars"; stat "10" "users"]
      /\ extractStats headingItemDocument = Some [stat "10" "users"; stat "5" "stars"]
      /\ extractStats headingItemDocument <> Some (statsInDocumentOrder headingItemDocument)).
Proof.
  repeat split; try (vm_compute; reflexivity).
  vm_compute. discriminate.
Qed.

(* ================================================================== *)
(** ** Badge Extractor *)
(* ================================================================== *)

Lemma length_skipn_le {A : Type} (n : nat) (l : list A) : length (skipn n l) <= length l.
Proof. rewrite length_skipn. lia. Qed.

(** The fuel [techWordAt] gives to [capWordsFrom] is enough: every further
    word takes code units from the text, so more fuel changes nothing. *)
Lemma capWordsFrom_fuel (fuel : nat) :
  forall (s : jstring) (len : nat),
    length s <= fuel -> capWordsFrom (S fuel) s len = capWordsFrom fuel s len.
Proof.
  induction fuel as [|fuel IH]; intros s len H.
  - destruct s; [reflexivity | simpl in H; lia].
  - change (capWordsFrom (S (S fuel)) s len)
      with (let stop := if boundaryBefore s then Some len else None in
            match
              match length (takeWhile isWhite s) with
              | O => None
              | S n =>
                  match capWord (skipn (S n) s) with
                  | Some w =>
                      capWordsFrom (S fuel) (skipn w (skipn (S n) s)) (len + S n + w)
                  | None => None
                  end
              end
            with
            | Some l => Some l
            | None => stop
            end).
    change (capWordsFrom (S fuel) s len)
      with (let stop := if boundaryBefore s then Some len else None in
            match
              match length (takeWhile isWhite s) with
              | O => None
              | S n =>
                  match capWord (skipn (S n) s) with
                  | Some w =>
                      capWordsFrom fuel (skipn w (skipn (S n) s)) (len + S n + w)
                  | None => None
                  end
              end
            with
            | Some l => Some l
            | None => stop
            end).
    cbv zeta. destruct (length (takeWhile isWhite s)) as [|n] eqn:W; [reflexivity|].
    destruct (capWord (skipn (S n) s)) as [w|]; [|reflexivity].
    rewrite IH; [reflexivity|].
    etransitivity; [apply length_skipn_le|].
    destruct s as [|c s]; [discriminate|].
    simpl skipn. etransitivity; [apply length_skipn_le|]. simpl in H. lia.
Qed.

(* ================================================================== *)
(** ** Optional fields of the result record *)
(* ================================================================== *)

Lemma capped_not_empty {A : Type} (n : nat) (l : list A) :
  (if Nat.ltb 0 (length l) then Some (firstn (S n) l) else None) <> Some [].
Proof. destruct l; simpl; discriminate. Qed.

Lemma extractStats_not_empty (ast : Root) : extractStats ast <> Some [].
Proof. unfold extractStats. cbv zeta. apply (capped_not_empty 3). Qed.

Lemma extractTechStack_not_empty (ast : Root) : extractTechStack ast <> Some [].
Proof. unfold extractTechStack. cbv zeta. apply (capped_not_empty 7). Qed.

Lemma extractTestimonials_not_empty (ast : Root) : extractTestimonials ast <> Some [].
Proof. unfold extractTestimonials. cbv zeta. apply (capped_not_empty 2). Qed.

Lemma extractHeroImage_not_empty (ast : Root) (h : HeroImage) :
  extractHeroImage ast = Some h -> heroUrl h <> [] /\ heroAlt h <> [].
Proof.
  unfold extractHeroImage.
  destruct (snd (fold_left heroStep (visit ast) (false, None))) as [[url alt]|];
    [|discriminate].
  destruct url as [|c url]; simpl; [discriminate|].
  intros [= <-]. simpl. split; [discriminate|].
  destruct (orElse_cases (optStr alt) (lit "Hero image")) as [[_ ->] | [H ->]];
    [discriminate | exact H].
Qed.

(** C3 (as amended).  In every result record [stats], [techStack] and
    [testimonials], when present, are non-empty, and [heroImage], when
    present, has a url and an alt text; [badges] is always present, with at
    most five entries. *)
Theorem C3_optional_fields :
  forall (urlHostname : jstring -> Result jstring) (ast : Root) (r : PageModel),
    parseReadme urlHostname ast = Ok r ->
    stats r <> Some []
    /\ techStack r <> Some []
    /\ testimonials r <> Some []
    /\ (forall h, heroImage r = Some h -> heroUrl h <> [] /\ heroAlt h <> [])
    /\ exists b, badges r = Some b /\ length b <= 5.
Proof.
  intros urlHostname ast r H. apply parseReadme_fields in H.
  destruct H as (_ & _ & Hb & Hh & Hs & Ht & Hq).
  rewrite Hs, Ht, Hq, Hh, Hb.
  split; [apply extractStats_not_empty|].
  split; [apply extractTechStack_not_empty|].
  split; [apply extractTestimonials_not_empty|].
  split; [apply extractHeroImage_not_empty|].
  eexists. split; [reflexivity|]. unfold extractBadges. cbv zeta. apply firstn_le_length.
Qed.

(** A use of C3 on a document with a statistic, a technology name, a
    testimonial and a screenshot. *)
Lemma C3_witness :
  exists r, parseReadme rejectingURL richDocument = Ok r
            /\ stats r = Some [stat "100+" "users"]
            /\ techStack r = Some [lit "react"]
            /\ stats r <> Some []
            /\ techStack r <> Some []
            /\ testimonials r <> Some []
            /\ (forall h, heroImage r = Some h -> heroUrl h <> [] /\ heroAlt h <> [])
            /\ exists b, badges r = Some b /\ length b <= 5.
Proof.
  eexists. split; [vm_compute; reflexivity|].
  split; [vm_compute; reflexivity|]. split; [vm_compute; reflexivity|].
  apply (@C3_optional_fields rejectingURL richDocument).
  vm_compute. reflexivity.
Defined.

(** C3 fails as stated: the document has no badge, and the [badges] field
    of its result record is present and empty. *)
Lemma C3_counterexample :
  exists r, parseReadme rejectingURL richDocument = Ok r /\ badges r = Some [].
Proof. eexists. split; vm_compute; reflexivity. Qed.

(* ================================================================== *)
(** ** Exceptions *)
(* ================================================================== *)

(** The URL parser is consulted only for an href that starts with "http":
    two parsers that agree on those give the same link. *)
Lemma displayLink_http_only (h1 h2 : jstring -> Result jstring) (l : Link) :
  (forall u, startsWith (lit "http") u = true -> h1 u = h2 u) ->
  displayLink h1 l = displayLink h2 l.
Proof.
  intros H. unfold displayLink. destruct (truthy (label l)); [reflexivity|].
  destruct (startsWith (lit "http") (href l)) eqn:E; [|reflexivity].
  now rewrite (H _ E).
Qed.

Lemma someR_total {A : Type} (p : A -> Result bool) (l : list A) :
  Forall (fun x => exists b, p x = Ok b) l -> exists b, someR p l = Ok b.
Proof.
  induction 1 as [|x l [b Hx] _ [b' IH]]; simpl; eauto.
  rewrite Hx. simpl. destruct b; eauto.
Qed.

Lemma findR_total {A : Type} (p : A -> Result bool) (l : list A) :
  Forall (fun x => exists b, p x = Ok b) l -> exists o, findR p l = Ok o.
Proof.
  induction 1 as [|x l [b Hx] _ [o IH]]; simpl; eauto.
  rewrite Hx. simpl. destruct b; eauto.
Qed.

(** The CTA Resolver returns on sections whose titles are strings. *)
Lemma extractCTA_total (links : list Link) (sections : list Section) :
  Forall stringTitle sections -> exists c, extractCTA links sections = Ok c.
Proof.
  intros H. unfold extractCTA. destruct (demoLink links); eauto.
  assert (H' : Forall (fun x => exists b, isInstallSection x = Ok b) sections).
  { eapply Forall_impl; [|exact H]. apply isInstallSection_stringTitle. }
  destruct (someR_total _ H') as [b ->]. simpl. destruct b; eauto.
  destruct (findR_total _ H') as [o ->]. simpl. destruct o; eauto.
Qed.

(** Once the tree is parsed, the only exception the engine can raise is
    the [TypeError] of a section title that is not a string. *)
Lemma parseReadme_total_on_string_titles (urlHostname : jstring -> Result jstring)
      (ast : Root) :
  Forall stringTitle (extractSections ast) ->
  exists r, parseReadme urlHostname ast = Ok r.
Proof.
  intros H. unfold parseReadme.
  destruct (extractCTA_total (extractLinks ast) H) as [c ->]. simpl.
  rewrite extractSecondaryLinks_total. simpl. eauto.
Qed.

(** C9, at the input on which the engine fails.  A heading "Constructor"
    with content below it gets as title the value [sectionMap] inherits
    under the key "constructor", which is no string; the CTA Resolver then
    calls [toLowerCase] on it and [parseReadme] throws, whatever the
    platform's URL parser does. *)
Theorem C9_constructor_heading_throws :
  forall urlHostname : jstring -> Result jstring,
    List.map title (extractSections constructorDocument)
      = [VInherited (lit "constructor")]
    /\ extractCTA (extractLinks constructorDocument) (extractSections constructorDocument)
       = Throw TypeError
    /\ parseReadme urlHostname constructorDocument = Throw TypeError.
Proof.
  intros urlHostname. repeat split; vm_compute; reflexivity.
Qed.

(* ================================================================== *)
(** ** Further properties: strings *)
(* ================================================================== *)

Lemma dropWhile_idem (p : char16 -> bool) (s : jstring) :
  dropWhile p (dropWhile p s) = dropWhile p s.
Proof.
  induction s as [|c s IH]; simpl; [reflexivity|].
  destruct (p c) eqn:E; [exact IH | simpl; now rewrite E].
Qed.

Lemma dropWhile_snoc (p : char16 -> bool) (s : jstring) (c : char16) :
  p c = false -> dropWhile p (s ++ [c]) = dropWhile p s ++ [c].
Proof.
  intros Hc. induction s as [|x s IH]; simpl; [now rewrite Hc|].
  destruct (p x); [exact IH | reflexivity].
Qed.

Lemma dropWhile_head (p : char16 -> bool) (s : jstring) :
  match dropWhile p s with
  | [] => True
  | c :: _ => p c = false
  end.
Proof.
  induction s as [|c s IH]; simpl; [exact I|].
  destruct (p c) eqn:E; [exact IH | exact E].
Qed.

Lemma trimEnd_cons (c : char16) (s : jstring) :
  isWhite c = false -> trimEnd (c :: s) = c :: trimEnd s.
Proof.
  intros Hc. unfold trimEnd. simpl. rewrite dropWhile_snoc by exact Hc.
  now rewrite rev_unit.
Qed.

Lemma trimEnd_idem (s : jstring) : trimEnd (trimEnd s) = trimEnd s.
Proof. unfold trimEnd. now rewrite rev_involutive, dropWhile_idem. Qed.

(** [trim] leaves nothing to trim. *)
Lemma trim_trimmed (s : jstring) : trimmed (trim s).
Proof.
  unfold trimmed, trim at 1. fold (trim s).
  assert (H : trimStart (trim s) = trim s).
  { unfold trim, trimStart.
    pose proof (dropWhile_head isWhite s) as Hd.
    destruct (dropWhile isWhite s) as [|c t]; [reflexivity|].
    rewrite trimEnd_cons by exact Hd. simpl. now rewrite Hd. }
  rewrite H. unfold trim. apply trimEnd_idem.
Qed.

Lemma trim_nonwhite_ends (c : char16) (m : jstring) (d : char16) :
  isWhite c = false -> isWhite d = false ->
  trim (c :: m ++ [d]) = c :: m ++ [d].
Proof.
  intros Hc Hd. unfold trim, trimStart. simpl. rewrite Hc.
  unfold trimEnd. simpl. rewrite rev_unit. simpl. rewrite Hd.
  simpl. rewrite rev_unit, rev_involutive. reflexivity.
Qed.

Lemma trimmed_fence (lang : option jstring) (value : jstring) :
  trim (fence lang value) = fence lang value.
Proof.
  replace (fence lang value)
    with (96 :: (96 :: 96 :: optStr lang ++ [10] ++ value ++ [10; 96; 96]) ++ [96])%N.
  - now apply trim_nonwhite_ends.
  - unfold fence. simpl. repeat (rewrite <- app_assoc; simpl). reflexivity.
Qed.

(* ================================================================== *)
(** ** Further properties: Section Segmenter *)
(* ================================================================== *)

Lemma saveSection_current (acc : list Section) (cur : Section) (nodes : list Node)
      (skip : bool) :
  saveSection (mkSegState acc (Some cur) nodes skip) = acc ++ savedOf cur nodes.
Proof.
  unfold saveSection, savedOf. simpl.
  destruct (truthy _); [reflexivity | now rewrite app_nil_r].
Qed.

Lemma segRun_body (acc : list Section) (cur : Section) (nodes body rest : list Node) :
  Forall (fun n => isH2plus n = false) body ->
  segRun acc cur nodes (body ++ rest) = segRun acc cur (nodes ++ body) rest.
Proof.
  intros H. revert nodes. induction H as [|n body Hn _ IH]; intros nodes; simpl.
  - now rewrite app_nil_r.
  - unfold segRun in *. simpl. unfold segStep at 2. simpl. rewrite Hn. simpl.
    rewrite IH, <- app_assoc. reflexivity.
Qed.

Lemma segRun_heading (acc : list Section) (cur : Section) (nodes : list Node)
      (h : Node) (rest : list Node) :
  isH2plus h = true ->
  segRun acc cur nodes (h :: rest) = segRun (acc ++ savedOf cur nodes) (startSection h) [] rest.
Proof.
  intros Hh. unfold segRun. simpl. unfold segStep at 2. simpl. rewrite Hh.
  rewrite saveSection_current. reflexivity.
Qed.

Lemma segRun_acc (rest : list Node) :
  forall (acc : list Section) (cur : Section) (nodes : list Node),
    segRun acc cur nodes rest = acc ++ segRun [] cur nodes rest.
Proof.
  induction rest as [|n rest IH]; intros acc cur nodes.
  - unfold segRun. simpl. now rewrite !saveSection_current.
  - destruct (isH2plus n) eqn:Hn.
    + rewrite !segRun_heading by exact Hn.
      rewrite IH, (IH ([] ++ savedOf cur nodes)). now rewrite app_assoc.
    + change (n :: rest) with ([n] ++ rest).
      rewrite !segRun_body by (repeat constructor; exact Hn). apply IH.
Qed.

Lemma extractSections_heading (h : Node) (rest : list Node) :
  isH2plus h = true -> extractSections (h :: rest) = segRun [] (startSection h) [] rest.
Proof.
  intros Hh. unfold extractSections, segRun. simpl. unfold segStep at 2. simpl.
  rewrite Hh. reflexivity.
Qed.

Lemma extractSections_skip (n : Node) (rest : list Node) :
  isH2plus n = false -> extractSections (n :: rest) = extractSections rest.
Proof.
  intros Hn. unfold extractSections. simpl. unfold segStep at 2. simpl.
  rewrite Hn. reflexivity.
Qed.

Lemma extractSections_preamble (pre rest : list Node) :
  Forall (fun n => isH2plus n = false) pre ->
  extractSections (pre ++ rest) = extractSections rest.
Proof.
  induction 1 as [|n pre Hn _ IH]; simpl; [reflexivity|].
  now rewrite extractSections_skip.
Qed.

Lemma extractSections_step (h : Node) (body rest : list Node) :
  isH2plus h = true ->
  Forall (fun n => isH2plus n = false) body ->
  atSectionStart rest ->
  extractSections (h :: body ++ rest) = sectionOf h body ++ extractSections rest.
Proof.
  intros Hh Hbody Hrest. rewrite extractSections_heading by exact Hh.
  rewrite segRun_body by exact Hbody. simpl.
  destruct rest as [|h' rest].
  - unfold segRun. simpl. rewrite saveSection_current. simpl.
    change (extractSections []) with (@nil Section). now rewrite app_nil_r.
  - simpl in Hrest. rewrite segRun_heading by exact Hrest.
    rewrite segRun_acc, extractSections_heading by exact Hrest. reflexivity.
Qed.

(** Everything before the first heading of depth 2 or more (title, tagline,
    preamble) leaves no trace in the sections; a document without such a
    heading has no section. *)
Theorem segmenter_skips_preamble :
  forall pre rest : list Node,
    Forall (fun n => isH2plus n = false) pre ->
    extractSections (pre ++ rest) = extractSections rest
    /\ extractSections pre = [].
Proof.
  intros pre rest H. split; [now apply extractSections_preamble|].
  rewrite <- (app_nil_r pre). now rewrite extractSections_preamble.
Qed.

Lemma segmenter_skips_preamble_witness :
  extractSections ([heading 1 "Foo"; paragraph "Does bar."]
                     ++ [heading 2 "Usage"; paragraph "Run it."])
  = extractSections [heading 2 "Usage"; paragraph "Run it."]
  /\ extractSections [heading 1 "Foo"; paragraph "Does bar."] = [].
Proof.
  apply segmenter_skips_preamble. repeat constructor.
Defined.

(** The segmenter works section by section: a heading of depth 2 or more
    and the nodes up to the next such heading give at most one section, the
    reconstructed markdown of those nodes trimmed, dropped when it is
    empty; the rest of the document is segmented independently. *)
Theorem segmenter_section_by_section :
  forall (h : Node) (body rest : list Node),
    isH2plus h = true ->
    Forall (fun n => isH2plus n = false) body ->
    atSectionStart rest ->
    extractSections (h :: body ++ rest) = sectionOf h body ++ extractSections rest.
Proof. exact extractSections_step. Qed.

Lemma segmenter_section_by_section_witness :
  extractSections
    (heading 2 "Usage"
       :: [paragraph "Run it."; Code (Some (lit "sh")) (lit "foo --help")]
       ++ [heading 3 "Notes"; paragraph "None."])
  = sectionOf (heading 2 "Usage")
              [paragraph "Run it."; Code (Some (lit "sh")) (lit "foo --help")]
    ++ extractSections [heading 3 "Notes"; paragraph "None."].
Proof.
  apply segmenter_section_by_section.
  - reflexivity.
  - repeat constructor.
  - reflexivity.
Defined.

Lemma sectionOf_length (h : Node) (body : list Node) : length (sectionOf h body) <= 1.
Proof. unfold sectionOf, savedOf. cbv zeta. destruct (truthy _); simpl; lia. Qed.

Lemma segRun_forall (Q : Section -> Prop) :
  (forall node nodes, Forall Q (sectionOf node nodes)) ->
  forall (rest : list Node) (acc : list Section) (node : Node) (nodes : list Node),
    Forall Q acc -> Forall Q (segRun acc (startSection node) nodes rest).
Proof.
  intros HQ. induction rest as [|n rest IH]; intros acc node nodes Hacc.
  - unfold segRun. simpl. rewrite saveSection_current. apply Forall_app.
    split; [exact Hacc | apply HQ].
  - destruct (isH2plus n) eqn:Hn.
    + rewrite segRun_heading by exact Hn. apply IH. apply Forall_app.
      split; [exact Hacc | apply HQ].
    + change (n :: rest) with ([n] ++ rest).
      rewrite segRun_body by (repeat constructor; exact Hn). now apply IH.
Qed.

Lemma extractSections_forall (Q : Section -> Prop) :
  (forall node nodes, Forall Q (sectionOf node nodes)) ->
  forall ast : Root, Forall Q (extractSections ast).
Proof.
  intros HQ. induction ast as [|n ast IH]; [constructor|].
  destruct (isH2plus n) eqn:Hn.
  - rewrite extractSections_heading by exact Hn. apply segRun_forall; [exact HQ | constructor].
  - now rewrite extractSections_skip.
Qed.

Lemma slugify_slug (t : jstring) : forallb isSlugChar (slugify t) = true.
Proof.
  unfold slugify, removeClass. apply forallb_forall. intros c Hc.
  apply filter_In in Hc. destruct Hc as [_ Hc]. now apply negb_true_iff, negb_false_iff in Hc.
Qed.

(** Every section has an id made of [a-z], [0-9] and [-] only, and a
    content that is not empty and has no white space at either end. *)
Theorem sections_have_slug_ids_and_trimmed_content :
  forall ast : Root,
    Forall (fun s => forallb isSlugChar (id s) = true
                     /\ content s <> []
                     /\ trimmed (content s))
           (extractSections ast).
Proof.
  apply extractSections_forall. intros node nodes.
  unfold sectionOf, savedOf. cbv zeta.
  destruct (truthy (trim (join [10; 10]%N (List.map nodeToString nodes)))) eqn:T;
    constructor; [|constructor].
  simpl. split; [apply slugify_slug|]. split.
  - intros E. rewrite E in T. discriminate.
  - apply trim_trimmed.
Qed.

Lemma segRun_length (rest : list Node) :
  forall (acc : list Section) (cur : Section) (nodes : list Node),
    length (segRun acc cur nodes rest) <= length acc + 1 + length (filter isH2plus rest).
Proof.
  induction rest as [|n rest IH]; intros acc cur nodes.
  - unfold segRun. simpl. rewrite saveSection_current, length_app.
    pose proof (sectionOf_length (Text []) nodes) as L. unfold sectionOf in L.
    unfold savedOf in *. cbv zeta in *. destruct (truthy _); simpl in *; lia.
  - destruct (isH2plus n) eqn:Hn.
    + rewrite segRun_heading by exact Hn. simpl. rewrite Hn. simpl.
      etransitivity; [apply IH|]. rewrite length_app.
      unfold savedOf. cbv zeta. destruct (truthy _); simpl; lia.
    + change (n :: rest) with ([n] ++ rest).
      rewrite segRun_body by (repeat constructor; exact Hn).
      simpl. rewrite Hn. apply IH.
Qed.

(** There are at most as many sections as the root has headings of depth 2
    or more: a heading starts at most one section, and nested headings
    start none. *)
Theorem sections_at_most_one_per_heading :
  forall ast : Root, length (extractSections ast) <= length (filter isH2plus ast).
Proof.
  induction ast as [|n ast IH]; [simpl; lia|].
  destruct (isH2plus n) eqn:Hn.
  - rewrite extractSections_heading by exact Hn. simpl. rewrite Hn. simpl.
    pose proof (segRun_length ast [] (startSection n) []) as L. simpl in L. lia.
  - rewrite extractSections_skip by exact Hn. simpl. now rewrite Hn.
Qed.

(** A section that holds one fenced code block has the block as content,
    fences, language tag and text unchanged, whatever the heading and the
    code are. *)
Theorem code_block_section_round_trip :
  forall (h : Node) (lang : option jstring) (value : jstring) (rest : list Node),
    isH2plus h = true ->
    atSectionStart rest ->
    extractSections (h :: Code lang value :: rest)
    = mkSection (id (startSection h)) (title (startSection h)) (fence lang value)
      :: extractSections rest.
Proof.
  intros h lang value rest Hh Hrest.
  change (h :: Code lang value :: rest) with (h :: [Code lang value] ++ rest).
  rewrite extractSections_step; [|exact Hh | repeat constructor | exact Hrest].
  unfold sectionOf, savedOf. cbv zeta.
  change (join [10; 10]%N (List.map nodeToString [Code lang value])) with (fence lang value).
  rewrite trimmed_fence. reflexivity.
Qed.

Lemma code_block_section_round_trip_witness :
  extractSections (heading 2 "Installation" :: Code (Some (lit "bash")) (lit "npm i foo") :: [])
  = mkSection (id (startSection (heading 2 "Installation")))
              (title (startSection (heading 2 "Installation")))
              (fence (Some (lit "bash")) (lit "npm i foo"))
    :: extractSections [].
Proof.
  apply code_block_section_round_trip; [reflexivity | exact I].
Defined.

(* ================================================================== *)
(** ** Further properties: Section Orderer *)
(* ================================================================== *)

Lemma newMap_entries (sections : list Section) (k : jstring) (s : Section) :
  In (k, s) (newMap (List.map (fun s => (toLowerCase (id s), s)) sections)) ->
  k = sectionKey s /\ In s sections.
Proof.
  intros H. apply In_newMap in H. apply in_map_iff in H.
  destruct H as [s' [[= <- <-] Hs]]. split; [reflexivity | exact Hs].
Qed.

Lemma setAdd_fresh (added : JsSet) (k : jstring) :
  setHas added k = false -> setAdd added k = added ++ [k].
Proof. intros H. unfold setAdd. now rewrite H. Qed.

Lemma placeByPriority_placedFrom (sections : list Section) (m : JsMap Section)
      (priorities : list jstring) :
  (forall k s, In (k, s) m -> k = sectionKey s /\ In s sections) ->
  forall ordered added,
    placedFrom sections ordered added ->
    placedFrom sections (fst (placeByPriority m priorities ordered added))
               (snd (placeByPriority m priorities ordered added)).
Proof.
  intros Hm. induction priorities as [|p priorities IH]; intros ordered added Inv; simpl.
  - exact Inv.
  - destruct (firstUnplaced added p m) as [[k s]|] eqn:F; [|now apply IH].
    apply firstUnplaced_some in F. destruct F as [Hin Hk].
    destruct (Hm _ _ Hin) as [Ek Hs]. destruct Inv as (Ea & Hnd & Hsub).
    apply IH. rewrite setAdd_fresh by exact Hk. split; [|split].
    + rewrite map_app, <- Ea, Ek. reflexivity.
    + apply NoDup_app; [exact Hnd | repeat constructor; auto |].
      intros a Ha [<- | []]. apply setHas_In in Ha. congruence.
    + intros s' Hs'. apply in_app_or in Hs'. destruct Hs' as [Hs' | [<- | []]]; auto.
Qed.

Lemma orderSections_shape (sections : list Section) :
  exists ordered added,
    orderSectionsIntelligently sections
    = ordered ++ filter (fun s => negb (setHas added (sectionKey s))) sections
    /\ placedFrom sections ordered added.
Proof.
  unfold orderSectionsIntelligently.
  set (m := newMap (List.map (fun s => (toLowerCase (id s), s)) sections)).
  pose proof (@placeByPriority_placedFrom sections m priorityOrder
                (@newMap_entries sections) [] []) as Inv.
  destruct (placeByPriority m priorityOrder [] []) as [ordered added].
  exists ordered, added. split; [reflexivity|].
  apply Inv. repeat split; [constructor | intros s []].
Qed.

(** The orderer never invents or repeats a section: every section of its
    output is a section of its input, and the output is no longer than the
    input. *)
Theorem orderer_outputs_input_sections :
  forall sections : list Section,
    (forall s, In s (orderSectionsIntelligently sections) -> In s sections)
    /\ length (orderSectionsIntelligently sections) <= length sections.
Proof.
  intros sections.
  destruct (orderSections_shape sections) as (ordered & added & -> & Ea & Hnd & Hsub).
  split.
  - intros s Hs. apply in_app_or in Hs. destruct Hs as [Hs | Hs]; [now apply Hsub|].
    apply filter_In in Hs. tauto.
  - rewrite length_app.
    pose proof (filter_length (fun s => setHas added (sectionKey s)) sections) as L.
    assert (Hle : length ordered
                  <= length (filter (fun s => setHas added (sectionKey s)) sections)).
    { rewrite <- (length_map sectionKey ordered), <- Ea.
      rewrite <- (length_map sectionKey (filter _ sections)).
      apply NoDup_incl_length; [exact Hnd|].
      intros k Hk. rewrite Ea in Hk. apply in_map_iff in Hk. destruct Hk as [s [<- Hs]].
      apply in_map. apply filter_In. split; [now apply Hsub|].
      apply setHas_In. rewrite Ea. now apply in_map. }
    lia.
Qed.

(** The orderer loses no id: the key (lower-cased id) of every input
    section is the key of some output section, also when sections that
    share a key are dropped. *)
Theorem orderer_keeps_every_id :
  forall (sections : list Section) (s : Section),
    In s sections ->
    In (sectionKey s) (List.map sectionKey (orderSectionsIntelligently sections)).
Proof.
  intros sections s Hs.
  destruct (orderSections_shape sections) as (ordered & added & -> & Ea & _ & _).
  rewrite map_app. apply in_or_app.
  destruct (setHas added (sectionKey s)) eqn:E.
  - left. apply setHas_In in E. now rewrite <- Ea.
  - right. apply in_map. apply filter_In. split; [exact Hs | now rewrite E].
Qed.

Lemma orderer_keeps_every_id_witness :
  In (sectionKey (mkSection (lit "usage") (VStr (lit "How it works")) (lit "First.")))
     (List.map sectionKey (orderSectionsIntelligently twoUsageSections)).
Proof.
  apply orderer_keeps_every_id. left. reflexivity.
Defined.

Lemma firstUnplaced_none (added : JsSet) (priorityId : jstring) (entries : JsMap Section) :
  (forall k s, In (k, s) entries -> matchesPriority k priorityId = false) ->
  firstUnplaced added priorityId entries = None.
Proof.
  induction entries as [|[k s] entries IH]; intros H; simpl; [reflexivity|].
  rewrite (H k s (or_introl eq_refl)), andb_false_r. apply IH.
  intros k' s' Hin. apply (H k' s'). now right.
Qed.

Lemma placeByPriority_none (m : JsMap Section) (priorities : list jstring)
      (ordered : list Section) (added : JsSet) :
  (forall p k s, In p priorities -> In (k, s) m -> matchesPriority k p = false) ->
  placeByPriority m priorities ordered added = (ordered, added).
Proof.
  induction priorities as [|p priorities IH]; intros H; simpl; [reflexivity|].
  rewrite firstUnplaced_none.
  - apply IH. intros p' k s Hp. apply H. now right.
  - intros k s. apply H. now left.
Qed.

(** When no section id matches a keyword of the priority list, the orderer
    returns the sections as they are, duplicates included. *)
Theorem orderer_keeps_unranked_sections :
  forall sections : list Section,
    (forall s p, In s sections -> In p priorityOrder ->
                 matchesPriority (sectionKey s) p = false) ->
    orderSectionsIntelligently sections = sections.
Proof.
  intros sections H. unfold orderSectionsIntelligently.
  rewrite placeByPriority_none.
  - simpl. induction sections as [|s sections IH]; simpl; [reflexivity|].
    f_equal. apply IH. intros s' p Hs'. apply H. now right.
  - intros p k s Hp Hin. apply newMap_entries in Hin. destruct Hin as [-> Hs].
    now apply H.
Qed.

Lemma orderer_keeps_unranked_sections_witness :
  orderSectionsIntelligently unrankedSections = unrankedSections.
Proof.
  apply orderer_keeps_unranked_sections.
  intros s p Hs Hp. vm_compute in Hs.
  destruct Hs as [<- | [<- | [<- | []]]]; vm_compute in Hp;
    repeat (destruct Hp as [<- | Hp]; [vm_compute; reflexivity|]); contradiction.
Defined.

Lemma greedyOrder_picks (keywords : list jstring) :
  forall placed unplaced : list Section,
    greedyOrder keywords placed unplaced
    = placed ++ fst (greedyPicks keywords unplaced) ++ snd (greedyPicks keywords unplaced).
Proof.
  induction keywords as [|k keywords IH]; intros placed unplaced; simpl; [reflexivity|].
  destruct (pickFirst (idMatches k) unplaced) as [[s others]|]; [|apply IH].
  rewrite IH. destruct (greedyPicks keywords others) as [P R]. simpl.
  now rewrite <- app_assoc.
Qed.

Lemma pickFirst_match {A : Type} (p : A -> bool) (l : list A) (x : A) (rest : list A) :
  pickFirst p l = Some (x, rest) -> p x = true.
Proof.
  revert x rest. induction l as [|y l IH]; simpl; intros x rest; [discriminate|].
  destruct (p y) eqn:E.
  - intros [= <- _]. exact E.
  - destruct (pickFirst p l) as [[z r]|]; [|discriminate].
    intros [= <- _]. now apply (IH z r).
Qed.

Lemma pickFirst_none {A : Type} (p : A -> bool) (l : list A) :
  (forall x, In x l -> p x = false) <-> pickFirst p l = None.
Proof.
  induction l as [|y l IH]; simpl; [tauto|]. split.
  - intros H. rewrite (H y (or_introl eq_refl)).
    destruct IH as [IH _]. rewrite IH; [reflexivity|]. intros x Hx. apply H. now right.
  - destruct (p y) eqn:E; [discriminate|].
    destruct (pickFirst p l) as [[z r]|]; [discriminate|].
    intros _ x [<- | Hx]; [exact E|]. now apply IH.
Qed.

Lemma greedyPicks_perm (keywords : list jstring) :
  forall unplaced : list Section,
    Permutation unplaced
                (fst (greedyPicks keywords unplaced) ++ snd (greedyPicks keywords unplaced)).
Proof.
  induction keywords as [|k keywords IH]; intros unplaced; simpl;
    [apply Permutation_refl|].
  destruct (pickFirst (idMatches k) unplaced) as [[s others]|] eqn:E; [|apply IH].
  apply pickFirst_perm in E. rewrite E. specialize (IH others).
  destruct (greedyPicks keywords others) as [P R]. simpl in *. now constructor.
Qed.

Lemma greedyPicks_idem (keywords : list jstring) :
  forall unplaced : list Section,
    greedyPicks keywords
                (fst (greedyPicks keywords unplaced) ++ snd (greedyPicks keywords unplaced))
    = greedyPicks keywords unplaced.
Proof.
  induction keywords as [|k keywords IH]; intros unplaced; simpl; [reflexivity|].
  destruct (pickFirst (idMatches k) unplaced) as [[s others]|] eqn:E.
  - specialize (IH others). pose proof (pickFirst_match _ _ E) as Hs.
    destruct (greedyPicks keywords others) as [P R]. simpl in *.
    rewrite Hs, IH. reflexivity.
  - pose proof (greedyPicks_perm keywords unplaced) as Hp.
    assert (N : pickFirst (idMatches k)
                  (fst (greedyPicks keywords unplaced) ++ snd (greedyPicks keywords unplaced))
                = None).
    { apply pickFirst_none. intros x Hx.
      apply (proj2 (pickFirst_none (idMatches k) unplaced) E).
      apply Permutation_sym in Hp. now apply (Permutation_in _ Hp). }
    rewrite N. apply IH.
Qed.

Lemma greedyOrder_idem (keywords : list jstring) (l : list Section) :
  greedyOrder keywords [] (greedyOrder keywords [] l) = greedyOrder keywords [] l.
Proof. rewrite !greedyOrder_picks, !app_nil_l. now rewrite greedyPicks_idem. Qed.

(** Ordering is idempotent on sections with pairwise distinct lower-case
    ids: ordering an ordered list changes nothing. *)
Theorem orderer_idempotent :
  forall sections : list Section,
    Forall lowerId sections ->
    NoDup (List.map id sections) ->
    orderSectionsIntelligently (orderSectionsIntelligently sections)
    = orderSectionsIntelligently sections.
Proof.
  intros sections Hlow Hnd.
  assert (Hperm : Permutation sections (orderSectionsIntelligently sections)).
  { rewrite (orderSections_greedy Hlow Hnd). apply (greedyOrder_perm priorityOrder []). }
  rewrite (@orderSections_greedy (orderSectionsIntelligently sections)).
  - rewrite (orderSections_greedy Hlow Hnd). apply greedyOrder_idem.
  - apply (Permutation_Forall Hperm Hlow).
  - now apply orderSections_NoDup.
Qed.

Lemma orderer_idempotent_witness :
  orderSectionsIntelligently (orderSectionsIntelligently orderingExample)
  = orderSectionsIntelligently orderingExample.
Proof.
  apply orderer_idempotent.
  - repeat constructor.
  - vm_compute. distinct_strings.
Defined.

(* ================================================================== *)
(** ** Further properties: Title and Tagline Extractors *)
(* ================================================================== *)

Lemma fold_left_pointwise {A B : Type} (f g : A -> B -> A) (l : list B) (i : A) :
  (forall a b, f a b = g a b) -> fold_left f l i = fold_left g l i.
Proof.
  intros H. revert i. induction l as [|b l IH]; intros i; simpl; [reflexivity|].
  now rewrite H, IH.
Qed.

Lemma truthy_false (s : jstring) : truthy s = false -> s = [].
Proof. destruct s; [reflexivity | discriminate]. Qed.

(** A visitor that keeps the first non-empty text. *)
Lemma fold_first_text (test : Node -> bool) (text : Node -> jstring) (nodes : list Node) :
  fold_left (fun t n => if test n && negb (truthy t) then text n else t) nodes []
  = match find (fun n => test n && truthy (text n)) nodes with
    | Some n => text n
    | None => []
    end.
Proof.
  assert (K : forall l t, truthy t = true ->
                          fold_left (fun t n => if test n && negb (truthy t) then text n else t)
                                    l t = t).
  { induction l as [|n l IH]; intros t Ht; simpl; [reflexivity|].
    rewrite Ht, andb_false_r. now apply IH. }
  induction nodes as [|n nodes IH]; simpl; [reflexivity|].
  destruct (test n); simpl; [|exact IH].
  destruct (truthy (text n)) eqn:T.
  - now apply K.
  - rewrite (truthy_false _ T). exact IH.
Qed.

Lemma In_visit (ast : Root) (n : Node) : In n ast -> In n (visit ast).
Proof.
  intros H. unfold visit. apply in_flat_map. exists n. split; [exact H|].
  destruct n; simpl; now left.
Qed.

(** The title is the text of the first depth-1 heading that has text,
    wherever it stands in the tree; without one, the trimmed text of the
    first paragraph that has text; without one, "Untitled Project".  It is
    never empty. *)
Theorem title_is_first_heading_then_first_paragraph :
  forall ast : Root,
    extractTitle ast
    = match find (fun n => isH1 n && truthy (extractTextFromNode n)) (visit ast) with
      | Some h => extractTextFromNode h
      | None =>
          match find (fun n => isParagraph n && truthy (trim (extractTextFromNode n)))
                     (visit ast) with
          | Some p => trim (extractTextFromNode p)
          | None => lit "Untitled Project"
          end
      end
    /\ extractTitle ast <> [].
Proof.
  intros ast.
  assert (E : extractTitle ast
              = match find (fun n => isH1 n && truthy (extractTextFromNode n)) (visit ast) with
                | Some h => extractTextFromNode h
                | None =>
                    match find (fun n => isParagraph n
                                         && truthy (trim (extractTextFromNode n)))
                               (visit ast) with
                    | Some p => trim (extractTextFromNode p)
                    | None => lit "Untitled Project"
                    end
                end).
  { unfold extractTitle. cbv zeta.
    rewrite (fold_first_text isH1 extractTextFromNode).
    destruct (find (fun n => isH1 n && truthy (extractTextFromNode n)) (visit ast))
      as [h|] eqn:F.
    - apply find_some in F. destruct F as [_ F]. apply andb_true_iff in F.
      destruct F as [_ F]. rewrite F. unfold orElse. now rewrite F.
    - simpl truthy. cbv iota.
      rewrite (@fold_left_pointwise _ _ _
                 (fun t n => if isParagraph n && negb (truthy t)
                             then trim (extractTextFromNode n) else t)).
      + rewrite (fold_first_text isParagraph (fun n => trim (extractTextFromNode n))).
        destruct (find (fun n => isParagraph n && truthy (trim (extractTextFromNode n)))
                       (visit ast)) as [p|] eqn:G; [|reflexivity].
        apply find_some in G. destruct G as [_ G]. apply andb_true_iff in G.
        destruct G as [_ G]. unfold orElse. now rewrite G.
      + intros t n. destruct (isParagraph n); [|reflexivity].
        destruct (truthy t) eqn:T; simpl; [reflexivity|].
        destruct (truthy (trim (extractTextFromNode n))) eqn:T'; [reflexivity|].
        now rewrite (truthy_false _ T), (truthy_false _ T'). }
  split; [exact E|]. unfold extractTitle. cbv zeta.
  match goal with |- orElse ?a ?b <> [] =>
    destruct (orElse_cases a b) as [[_ ->] | [H ->]]; [discriminate | exact H]
  end.
Qed.

Lemma taglineScan_source (nodes : list Node) :
  forall (tagline : jstring) (foundH1 : bool) (paragraphCount : nat),
    taglineScan nodes tagline foundH1 paragraphCount = tagline
    \/ exists p, In p nodes /\ isParagraph p = true
                 /\ taglineScan nodes tagline foundH1 paragraphCount
                    = trim (extractTextFromNode p)
                 /\ length (trim (extractTextFromNode p)) < 200.
Proof.
  induction nodes as [|n nodes IH]; intros tagline foundH1 paragraphCount;
    [now left|].
  assert (Next : forall t f c,
             taglineScan nodes t f c = t
             \/ exists p, In p (n :: nodes) /\ isParagraph p = true
                          /\ taglineScan nodes t f c = trim (extractTextFromNode p)
                          /\ length (trim (extractTextFromNode p)) < 200).
  { intros t f c. destruct (IH t f c) as [E | (p & Hp & Hpar & E & L)]; [now left|].
    right. exists p. repeat split; auto. now right. }
  simpl. destruct (isH1 n); [apply Next|].
  destruct foundH1; [|apply Next].
  destruct (isParagraph n) eqn:P.
  - destruct (truthy (trim (extractTextFromNode n))); [|apply Next].
    destruct (Nat.ltb_spec (length (trim (extractTextFromNode n))) 200) as [L | L].
    + rewrite !andb_true_r. destruct (Nat.eqb paragraphCount 0).
      * right. exists n. split; [now left | auto].
      * destruct (negb (truthy tagline)); [|apply Next].
        destruct (Next (trim (extractTextFromNode n)) true (S paragraphCount))
          as [E | H]; [|right; exact H].
        right. exists n. split; [now left | auto].
    + rewrite !andb_false_r. apply Next.
  - destruct (isH2plus n); [|apply Next].
    destruct (negb (truthy tagline)); [now left | apply Next].
Qed.

Lemma taglineFallback_source (nodes : list Node) (tagline : jstring) :
  let r := fold_left
             (fun tagline node =>
                if isParagraph node && negb (truthy tagline)
                then
                  let text := trim (extractTextFromNode node) in
                  if truthy text && Nat.ltb (length text) 200 then text else tagline
                else tagline)
             nodes tagline in
  r = tagline
  \/ exists p, In p nodes /\ isParagraph p = true
               /\ r = trim (extractTextFromNode p)
               /\ length (trim (extractTextFromNode p)) < 200.
Proof.
  revert tagline. induction nodes as [|n nodes IH]; intros tagline; simpl; [now left|].
  match goal with |- context [fold_left ?f nodes ?t] =>
    destruct (IH t) as [E | (p & Hp & Hpar & E & L)]
  end.
  - simpl in E. rewrite E.
    destruct (isParagraph n) eqn:P; simpl; [|now left].
    destruct (negb (truthy tagline)); simpl; [|now left].
    destruct (truthy (trim (extractTextFromNode n))); simpl; [|now left].
    destruct (Nat.ltb_spec (length (trim (extractTextFromNode n))) 200) as [L | L];
      [|now left].
    right. exists n. repeat split; auto.
  - right. exists p. repeat split; auto.
Qed.

(** The tagline before truncation is empty or the trimmed text, of fewer
    than 200 code units, of a paragraph of the document; so the truncation
    to 160 cuts off at most 42 code units, and a paragraph of 200 code
    units or more is never the tagline. *)
Theorem tagline_is_a_short_paragraph :
  forall ast : Root,
    selectTagline ast = []
    \/ exists p, In p (visit ast) /\ isParagraph p = true
                 /\ selectTagline ast = trim (extractTextFromNode p)
                 /\ length (selectTagline ast) < 200.
Proof.
  intros ast. unfold selectTagline. cbv zeta.
  destruct (truthy (taglineScan ast [] false 0)) eqn:T; simpl negb; cbv iota.
  - destruct (taglineScan_source ast [] false 0) as [E | (p & Hp & Hpar & E & L)].
    + rewrite E in T. discriminate.
    + right. exists p. rewrite E. repeat split; auto. now apply In_visit.
  - rewrite (truthy_false _ T).
    destruct (taglineFallback_source (visit ast) []) as [E' | (p & Hp & Hpar & E' & L)].
    + left. exact E'.
    + right. exists p. cbv zeta in E'. rewrite E'. auto.
Qed.

Lemma taglineScan_before_title (pre rest : list Node) (tagline : jstring) (count : nat) :
  Forall (fun n => isH1 n = false) pre ->
  taglineScan (pre ++ rest) tagline false count = taglineScan rest tagline false count.
Proof.
  induction 1 as [|n pre Hn _ IH]; simpl; [reflexivity|]. now rewrite Hn.
Qed.

Lemma taglineScan_passed (mid rest : list Node) :
  Forall passedByTaglineScan mid ->
  taglineScan (mid ++ rest) [] true 0 = taglineScan rest [] true 0.
Proof.
  induction 1 as [|n mid [Hh Hp] _ IH]; simpl; [reflexivity|].
  destruct (isH1 n); [exact IH|].
  destruct (isParagraph n).
  - rewrite (Hp eq_refl). exact IH.
  - rewrite Hh. exact IH.
Qed.

(** The first paragraph with text after the title is the tagline when it
    is shorter than 200 code units, whatever comes before the title and
    whatever nodes without text (images, rules, empty paragraphs) stand in
    between; its text is trimmed. *)
Theorem tagline_is_first_paragraph_after_title :
  forall (pre : list Node) (h : Node) (mid : list Node) (p : Node) (rest : list Node),
    Forall (fun n => isH1 n = false) pre ->
    isH1 h = true ->
    Forall passedByTaglineScan mid ->
    isH1 p = false ->
    isParagraph p = true ->
    trim (extractTextFromNode p) <> [] ->
    length (trim (extractTextFromNode p)) < 200 ->
    selectTagline (pre ++ h :: mid ++ p :: rest) = trim (extractTextFromNode p).
Proof.
  intros pre h mid p rest Hpre Hh Hmid Hp1 Hp Htext Hlen.
  assert (E : taglineScan (pre ++ h :: mid ++ p :: rest) [] false 0
              = trim (extractTextFromNode p)).
  { rewrite taglineScan_before_title by exact Hpre. simpl. rewrite Hh.
    rewrite taglineScan_passed by exact Hmid. simpl. rewrite Hp1, Hp.
    destruct (trim (extractTextFromNode p)) as [|c t] eqn:T; [contradiction|].
    simpl truthy. cbv iota. apply Nat.ltb_lt in Hlen. rewrite Hlen. reflexivity. }
  unfold selectTagline. cbv zeta. rewrite E.
  destruct (trim (extractTextFromNode p)); [contradiction | reflexivity].
Qed.

Lemma tagline_is_first_paragraph_after_title_witness :
  selectTagline
    ([Parent Paragraph [Image (lit "ci.svg") (Some (lit "build status"))]]
       ++ heading 1 "Foo"
       :: [Parent Paragraph [Image (lit "shot.png") (Some (lit "screenshot"))]]
       ++ paragraph "  Does bar, fast.  "
       :: [heading 2 "Usage"; paragraph "Run it."])
  = trim (extractTextFromNode (paragraph "  Does bar, fast.  ")).
Proof.
  apply tagline_is_first_paragraph_after_title.
  - repeat constructor.
  - reflexivity.
  - repeat constructor.
  - reflexivity.
  - reflexivity.
  - vm_compute. discriminate.
  - vm_compute. lia.
Defined.

(* ================================================================== *)
(** ** Further properties: CTA Resolver and Assembler *)
(* ================================================================== *)

Lemma startsWith_hash_placeholder (h : jstring) :
  startsWith (lit "#") h = false -> streq h (lit "#") = false.
Proof.
  intros H. apply streq_neq. intros E. rewrite E in H. discriminate.
Qed.

Lemma demoLink_first (before : list Link) (l : Link) (after : list Link) :
  Forall (fun x => isLiveLink x = false) before ->
  isLiveLink l = true ->
  demoLink (before ++ l :: after) = Some l.
Proof.
  unfold isLiveLink. intros Hb Hl.
  induction Hb as [|x before Hx _ IH]; cbn [app demoLink].
  - apply andb_true_iff in Hl. destruct Hl as [K A]. rewrite K, A.
    apply negb_true_iff in A. now rewrite (startsWith_hash_placeholder _ A).
  - destruct (hasDemoKeyword x); cbn [andb] in *; [|exact IH].
    rewrite Hx. exact IH.
Qed.

Lemma demoLink_In (links : list Link) (l : Link) :
  demoLink links = Some l -> In l links.
Proof.
  induction links as [|x links IH]; simpl; [discriminate|].
  destruct (_ && _); [intros [= <-]; now left | intros H; right; now apply IH].
Qed.

(** The first link with an action keyword and a URL that does not start
    with "#" is the call to action, whatever the sections are: they are
    not looked at, so not even a section title that is no string makes the
    resolver throw.  A keyword link to an anchor such as "#demo" is passed
    over. *)
Theorem cta_is_first_live_link :
  forall (before : list Link) (l : Link) (after : list Link) (sections : list Section),
    Forall (fun x => isLiveLink x = false) before ->
    isLiveLink l = true ->
    extractCTA (before ++ l :: after) sections = Ok l.
Proof.
  intros before l after sections Hb Hl. unfold extractCTA.
  now rewrite (@demoLink_first before l after Hb Hl).
Qed.

Lemma cta_is_first_live_link_witness :
  extractCTA ([mkLink (lit "Demo") (lit "#demo")]
                ++ mkLink (lit "Try it") (lit "https://foo.dev")
                :: [mkLink (lit "Source") (lit "https://github.com/a/foo")])
             (extractSections anchoredDemoDocument)
  = Ok (mkLink (lit "Try it") (lit "https://foo.dev")).
Proof.
  apply cta_is_first_live_link.
  - repeat constructor.
  - reflexivity.
Defined.

Lemma someR_result {A : Type} (p : A -> Result bool) (l : list A) (b : bool) :
  someR p l = Ok b ->
  if b then exists x, In x l /\ p x = Ok true else True.
Proof.
  destruct b; [|trivial]. induction l as [|x l IH]; simpl; [discriminate|].
  destruct (p x) as [[|]|e] eqn:E; simpl; try discriminate.
  - intros _. exists x. auto.
  - intros H. destruct (IH H) as [y [Hy Py]]. exists y. auto.
Qed.

Lemma findR_result {A : Type} (p : A -> Result bool) (l : list A) (x : A) :
  findR p l = Ok (Some x) -> In x l /\ p x = Ok true.
Proof.
  induction l as [|y l IH]; simpl; [discriminate|].
  destruct (p y) as [[|]|e] eqn:E; simpl; try discriminate.
  - intros [= <-]. auto.
  - intros H. destruct (IH H). auto.
Qed.

Lemma someR_throws {A : Type} (p : A -> Result bool) (l : list A) (e : Error) :
  someR p l = Throw e -> exists x, In x l /\ p x = Throw e.
Proof.
  induction l as [|x l IH]; simpl; [discriminate|].
  destruct (p x) as [[|]|e'] eqn:E; simpl; try discriminate.
  - intros H. destruct (IH H) as [y [Hy Py]]. exists y. auto.
  - intros [= <-]. exists x. auto.
Qed.

Lemma findR_throws {A : Type} (p : A -> Result bool) (l : list A) (e : Error) :
  findR p l = Throw e -> exists x, In x l /\ p x = Throw e.
Proof.
  induction l as [|x l IH]; simpl; [discriminate|].
  destruct (p x) as [[|]|e'] eqn:E; simpl; try discriminate.
  - intros H. destruct (IH H) as [y [Hy Py]]. exists y. auto.
  - intros [= <-]. exists x. auto.
Qed.

Lemma isInstallSection_throws (s : Section) (e : Error) :
  isInstallSection s = Throw e ->
  e = TypeError /\ exists property, title s = VInherited property.
Proof.
  unfold isInstallSection, titleLower. destruct (title s) as [t | property]; simpl;
    [discriminate|].
  intros [= <-]. eauto.
Qed.

Lemma extractCTA_throws (links : list Link) (sections : list Section) (e : Error) :
  extractCTA links sections = Throw e ->
  e = TypeError
  /\ demoLink links = None
  /\ exists s property, In s sections /\ title s = VInherited property.
Proof.
  unfold extractCTA. destruct (demoLink links); [discriminate|].
  destruct (someR isInstallSection sections) as [b|e'] eqn:S1; simpl.
  - destruct b.
    + destruct (findR isInstallSection sections) as [o|e'] eqn:F; simpl.
      * destruct o; discriminate.
      * intros [= <-]. apply findR_throws in F. destruct F as [s [Hs Ps]].
        apply isInstallSection_throws in Ps. destruct Ps as [-> [property T]].
        repeat split; eauto.
    + discriminate.
  - intros [= <-]. apply someR_throws in S1. destruct S1 as [s [Hs Ps]].
    apply isInstallSection_throws in Ps. destruct Ps as [-> [property T]].
    repeat split; eauto.
Qed.

Lemma parseReadme_cases (urlHostname : jstring -> Result jstring) (ast : Root) :
  match extractCTA (extractLinks ast) (extractSections ast) with
  | Ok c =>
      exists r, parseReadme urlHostname ast = Ok r
                /\ cta r = c
                /\ pmSections r = orderSectionsIntelligently (extractSections ast)
  | Throw e => parseReadme urlHostname ast = Throw e
  end.
Proof.
  unfold parseReadme.
  destruct (extractCTA (extractLinks ast) (extractSections ast)) as [c|e]; simpl;
    [|reflexivity].
  rewrite extractSecondaryLinks_total. simpl. eexists. repeat split.
Qed.

(** The engine fails in one way only: with a [TypeError], on a document
    that has no live keyword link and has a section whose heading spells a
    property every object inherits (such as "constructor"), so that its
    title is no string.  A live keyword link keeps the engine from
    failing. *)
Theorem engine_fails_only_on_inherited_titles :
  forall (urlHostname : jstring -> Result jstring) (ast : Root),
    (forall e, parseReadme urlHostname ast = Throw e ->
               e = TypeError
               /\ demoLink (extractLinks ast) = None
               /\ exists s property,
                    In s (extractSections ast)
                    /\ title s = VInherited property
                    /\ In property objectPrototype)
    /\ (forall l, demoLink (extractLinks ast) = Some l ->
                  exists r, parseReadme urlHostname ast = Ok r /\ cta r = l).
Proof.
  intros urlHostname ast. pose proof (parseReadme_cases urlHostname ast) as C. split.
  - intros e H.
    destruct (extractCTA (extractLinks ast) (extractSections ast)) as [c|e'] eqn:E.
    + destruct C as [r [C _]]. congruence.
    + assert (e' = e) by congruence. subst e'.
      apply extractCTA_throws in E. destruct E as (-> & D & s & property & Hs & T).
      repeat split; auto. exists s, property. repeat split; auto.
      pose proof (extractSections_titles ast) as F. rewrite Forall_forall in F.
      destruct (F s Hs) as [[t Ht] | [q [Hq Hin]]]; [congruence|].
      assert (q = property) by congruence. now subst.
  - intros l D. unfold extractCTA in C. rewrite D in C.
    destruct C as [r [C [E _]]]. eauto.
Qed.

Lemma engine_fails_only_on_inherited_titles_witness :
  (TypeError = TypeError
   /\ demoLink (extractLinks constructorDocument) = None
   /\ exists s property,
        In s (extractSections constructorDocument)
        /\ title s = VInherited property
        /\ In property objectPrototype)
  /\ exists r, parseReadme rejectingURL anchoredDemoDocument = Ok r
               /\ cta r = mkLink (lit "Try it") (lit "https://foo.dev").
Proof.
  split.
  - apply (proj1 (engine_fails_only_on_inherited_titles rejectingURL constructorDocument)).
    vm_compute. reflexivity.
  - apply (proj2 (engine_fails_only_on_inherited_titles rejectingURL anchoredDemoDocument)).
    vm_compute. reflexivity.
Defined.

Lemma orderSections_id_kept (l : list Section) (s : Section) :
  Forall lowerId l -> In s l ->
  exists s', In s' (orderSectionsIntelligently l) /\ id s' = id s.
Proof.
  intros Hlow Hs. rewrite Forall_forall in Hlow.
  destruct (orderSections_shape l) as (ordered & added & -> & Ea & _ & Hsub).
  destruct (setHas added (sectionKey s)) eqn:E.
  - apply setHas_In in E. rewrite Ea in E. apply in_map_iff in E.
    destruct E as [s' [K Hs']]. exists s'. split; [apply in_or_app; now left|].
    unfold sectionKey in K. rewrite (Hlow s' (Hsub s' Hs')), (Hlow s Hs) in K. exact K.
  - exists s. split; [|reflexivity]. apply in_or_app. right.
    apply filter_In. split; [exact Hs | now rewrite E].
Qed.

Lemma extractCTA_ok_cases (links : list Link) (sections : list Section) (c : Link) :
  extractCTA links sections = Ok c ->
  In c links
  \/ (exists s, In s sections /\ c = mkLink (lit "Get Started") (lit "#" ++ id s))
  \/ c = githubOrDefault links.
Proof.
  unfold extractCTA. destruct (demoLink links) as [l|] eqn:D.
  - intros [= <-]. left. now apply demoLink_In.
  - destruct (someR isInstallSection sections) as [[|]|e]; simpl; try discriminate.
    + destruct (findR isInstallSection sections) as [[s|]|e] eqn:F; simpl;
        try discriminate.
      * intros [= <-]. right. left. apply findR_result in F. exists s. tauto.
      * intros [= <-]. now right; right.
    + intros [= <-]. now right; right.
Qed.

(** Where the call to action of a result record comes from: it is a link
    of the document, or "Get Started" pointing at the anchor of a section
    that is in the record, or "View on GitHub" with the target of a
    document link to github.com, or the fallback "Get Started" to "#".
    Neither its label nor its target is ever empty. *)
Theorem cta_provenance :
  forall (urlHostname : jstring -> Result jstring) (ast : Root) (r : PageModel),
    parseReadme urlHostname ast = Ok r ->
    (In (cta r) (extractLinks ast)
     \/ (exists s, In s (pmSections r)
                   /\ cta r = mkLink (lit "Get Started") (lit "#" ++ id s))
     \/ (exists l, In l (extractLinks ast)
                   /\ includes (lit "github.com") (href l) = true
                   /\ cta r = mkLink (lit "View on GitHub") (href l))
     \/ cta r = mkLink (lit "Get Started") (lit "#"))
    /\ label (cta r) <> [] /\ href (cta r) <> [].
Proof.
  intros urlHostname ast r H.
  pose proof (parseReadme_cases urlHostname ast) as C.
  destruct (extractCTA (extractLinks ast) (extractSections ast)) as [c|e] eqn:E;
    [|congruence].
  destruct C as [r' [C [Ec Es]]]. assert (r' = r) by congruence. subst r'.
  rewrite Ec, Es. clear H C Ec Es.
  assert (Hlink : forall l, In l (extractLinks ast) -> label l <> [] /\ href l <> []).
  { intros l Hl. apply extractLinks_label in Hl. destruct Hl as [A B].
    split; intros Z; rewrite Z in *; discriminate. }
  apply extractCTA_ok_cases in E. destruct E as [E | [[s [Hs ->]] | ->]].
  - split; [now left | now apply Hlink].
  - destruct (@orderSections_id_kept (extractSections ast) s
                (extractSections_lowerId ast) Hs) as [s' [Hs' Ei]].
    split; [|split; discriminate].
    right; left. exists s'. split; [exact Hs' | now rewrite Ei].
  - unfold githubOrDefault.
    destruct (find (fun l => includes (lit "github.com") (href l)) (extractLinks ast))
      as [g|] eqn:F.
    + apply find_some in F. destruct F as [Hg G]. split.
      * right; right; left. exists g. auto.
      * split; [discriminate | simpl; now apply Hlink].
    + split; [now right; right; right | split; discriminate].
Qed.

Lemma cta_provenance_witness :
  exists r, parseReadme rejectingURL endToEndDocument = Ok r
            /\ (In (cta r) (extractLinks endToEndDocument)
                \/ (exists s, In s (pmSections r)
                              /\ cta r = mkLink (lit "Get Started") (lit "#" ++ id s))
                \/ (exists l, In l (extractLinks endToEndDocument)
                              /\ includes (lit "github.com") (href l) = true
                              /\ cta r = mkLink (lit "View on GitHub") (href l))
                \/ cta r = mkLink (lit "Get Started") (lit "#"))
            /\ label (cta r) <> [] /\ href (cta r) <> [].
Proof.
  eexists. split; [vm_compute; reflexivity|].
  apply (@cta_provenance rejectingURL endToEndDocument).
  vm_compute. reflexivity.
Defined.

(* ================================================================== *)
(** ** Further properties: Secondary Link Curator *)
(* ================================================================== *)

Lemma find_filter_indexed {A : Type} (p q : A -> bool) (l : list A) :
  forall start : nat,
    option_map snd
      (find (fun x => p (snd x))
            (filter (fun x => q (snd x)) (combine (seq start (length l)) l)))
    = find (fun y => q y && p y) l.
Proof.
  induction l as [|y l IH]; intros start; simpl; [reflexivity|].
  destruct (q y); simpl; [|apply IH].
  destruct (p y); simpl; [reflexivity | apply IH].
Qed.

Lemma keepLink_scheme (cta l : Link) :
  keepLink cta l = true ->
  startsWith (lit "http") (href l) = true \/ startsWith (lit "#") (href l) = true.
Proof.
  unfold keepLink. destruct (_ || _); [discriminate|].
  destruct (startsWith (lit "http") (href l)); [now left|].
  destruct (startsWith (lit "#") (href l)); [now right | discriminate].
Qed.

Lemma curateLinks_github_first (links : list Link) (cta g : Link) :
  find (fun l => keepLink cta l && includes (lit "github.com") (href l)) links = Some g ->
  option_map snd (hd_error (curateLinks links cta)) = Some g.
Proof.
  intros F. unfold curateLinks.
  pose proof (find_filter_indexed (fun l => includes (lit "github.com") (href l))
                                  (keepLink cta) links 0) as E.
  unfold indexed. cbv zeta.
  destruct (find (fun x => includes (lit "github.com") (href (snd x)))
                 (filter (fun x => keepLink cta (snd x))
                         (combine (seq 0 (length links)) links))) as [x|];
    rewrite F in E; simpl in E; [|discriminate].
  injection E as E.
  apply find_some in F. destruct F as [_ K]. apply andb_true_iff in K.
  destruct K as [K _]. apply keepLink_true in K. destruct K as [K _].
  rewrite E. apply streq_neq in K. rewrite K. simpl negb. cbv iota.
  unfold sliceTo at 3. simpl. now rewrite E.
Qed.

(** Every secondary link is a link of the document, label and target
    unchanged, whose target starts with "http" or "#"; and when the
    document has a link to github.com that is kept (a target other than
    the call to action's and other than "#"), the first such link comes
    first. *)
Theorem secondary_links_provenance :
  forall (urlHostname : jstring -> Result jstring) (ast : Root) (cta : Link)
         (secondary : list Link),
    extractSecondaryLinks urlHostname (extractLinks ast) cta = Ok secondary ->
    (forall l, In l secondary ->
               In l (extractLinks ast)
               /\ (startsWith (lit "http") (href l) = true
                   \/ startsWith (lit "#") (href l) = true))
    /\ (forall g,
           find (fun l => keepLink cta l && includes (lit "github.com") (href l))
                (extractLinks ast) = Some g ->
           hd_error secondary = Some g).
Proof.
  intros urlHostname ast cta secondary H.
  rewrite extractSecondaryLinks_total in H. injection H as <-.
  assert (Eta : forall x : nat * Link, mkLink (label (snd x)) (href (snd x)) = snd x).
  { intros [i [a b]]. reflexivity. }
  split.
  - intros l Hl. apply in_map_iff in Hl. destruct Hl as [x [<- Hx]]. rewrite Eta.
    apply curateLinks_spec in Hx. destruct Hx as [Hx K]. split; [exact Hx|].
    now apply keepLink_scheme in K.
  - intros g F. apply curateLinks_github_first in F.
    destruct (curateLinks (extractLinks ast) cta) as [|x rest]; [discriminate|].
    simpl in *. injection F as <-. now rewrite Eta.
Qed.

Lemma secondary_links_provenance_witness :
  (forall l, In l [mkLink (lit "Source") (lit "https://github.com/a/foo");
                   mkLink (lit "Twitter") (lit "https://twitter.com/foo");
                   mkLink (lit "Docs") (lit "https://foo.dev/docs")] ->
             In l (extractLinks linkedDocument)
             /\ (startsWith (lit "http") (href l) = true
                 \/ startsWith (lit "#") (href l) = true))
  /\ (forall g,
         find (fun l => keepLink (mkLink (lit "Live demo") (lit "https://foo.dev")) l
                        && includes (lit "github.com") (href l))
              (extractLinks linkedDocument) = Some g ->
         hd_error [mkLink (lit "Source") (lit "https://github.com/a/foo");
                   mkLink (lit "Twitter") (lit "https://twitter.com/foo");
                   mkLink (lit "Docs") (lit "https://foo.dev/docs")] = Some g).
Proof.
  apply (@secondary_links_provenance rejectingURL linkedDocument
           (mkLink (lit "Live demo") (lit "https://foo.dev"))).
  vm_compute. reflexivity.
Defined.

(* ================================================================== *)
(** ** Further properties: badges, technologies, testimonials, features *)
(* ================================================================== *)

Lemma NoDup_firstn {A : Type} (n : nat) (l : list A) : NoDup l -> NoDup (firstn n l).
Proof.
  revert l. induction n as [|n IH]; intros [|x l] H; simpl; try constructor.
  - inversion H; subst. intros Hin. apply In_firstn in Hin. contradiction.
  - inversion H; subst. now apply IH.
Qed.

Lemma badgeInv_push (badges : list Badge) (seen : JsSet) (b : Badge) :
  badgeInv (badges, seen) ->
  setHas seen (badgeKey b) = false ->
  badgeInv (badges ++ [b], setAdd seen (badgeKey b)).
Proof.
  intros [Hnd Hseen] Hb. simpl in *. split; simpl.
  - rewrite map_app. apply NoDup_app; [exact Hnd | repeat constructor; auto |].
    intros k Hk [<- | []]. apply in_map_iff in Hk. destruct Hk as [b' [E Hb']].
    specialize (Hseen b' Hb'). rewrite E in Hseen. congruence.
  - intros b' Hb'. rewrite setHas_setAdd. apply in_app_or in Hb'.
    destruct Hb' as [Hb' | [<- | []]].
    + now rewrite (Hseen b' Hb').
    + rewrite streq_refl. apply orb_true_r.
Qed.

Lemma imageBadge_inv (st : BadgeState) (node : Node) :
  badgeInv st -> badgeInv (imageBadge st node).
Proof.
  destruct st as [badges seen]. intros Inv. unfold imageBadge.
  destruct node as [| url [nodeAlt|] | | |]; try exact Inv.
  destruct (truthy nodeAlt); [|exact Inv].
  destruct (includesAny _ _); [|exact Inv].
  destruct (negb (setHas seen (toLowerCase nodeAlt))) eqn:E; [|exact Inv].
  apply negb_true_iff in E.
  exact (@badgeInv_push badges seen (mkBadge nodeAlt (orUndefined url)) Inv E).
Qed.

Lemma linkBadge_inv (st : BadgeState) (l : Link) :
  badgeInv st -> badgeInv (linkBadge st l).
Proof.
  destruct st as [badges seen]. intros Inv. unfold linkBadge. cbv zeta.
  destruct (_ && negb (setHas seen (toLowerCase (label l)))) eqn:E; [|exact Inv].
  apply andb_true_iff in E. destruct E as [_ E]. apply negb_true_iff in E.
  exact (@badgeInv_push badges seen (mkBadge (label l) (Some (href l))) Inv E).
Qed.

Lemma wordBadges_inv (words : list jstring) :
  forall st : BadgeState,
    badgeInv st ->
    badgeInv
      (fold_left
         (fun st word =>
            let '(badges, seen) := st in
            if negb (setHas seen (toLowerCase word))
            then (badges ++ [mkBadge word None], setAdd seen (toLowerCase word))
            else st)
         words st).
Proof.
  induction words as [|w words IH]; intros st Inv; simpl; [exact Inv|].
  apply IH. destruct st as [badges seen].
  destruct (negb (setHas seen (toLowerCase w))) eqn:E; [|exact Inv].
  apply negb_true_iff in E.
  exact (@badgeInv_push badges seen (mkBadge w None) Inv E).
Qed.

Lemma techLineBadges_inv (st : BadgeState) (node : Node) :
  badgeInv st -> badgeInv (techLineBadges st node).
Proof.
  intros Inv. unfold techLineBadges. cbv zeta.
  repeat match goal with
         | |- badgeInv (if ?c then _ else _) => destruct c; [|exact Inv]
         end.
  now apply wordBadges_inv.
Qed.

Lemma fold_left_inv {A B : Type} (P : A -> Prop) (f : A -> B -> A) (l : list B) :
  (forall a b, P a -> P (f a b)) -> forall a, P a -> P (fold_left f l a).
Proof.
  intros H. induction l as [|b l IH]; intros a Ha; simpl; [exact Ha|].
  apply IH. now apply H.
Qed.

(** Badges are deduplicated by label without regard to case, across the
    three sources (images, links, technology words), and there are at
    most five of them. *)
Theorem badges_have_distinct_labels :
  forall (ast : Root) (links : list Link),
    NoDup (List.map badgeKey (extractBadges ast links))
    /\ length (extractBadges ast links) <= 5.
Proof.
  intros ast links. unfold extractBadges. cbv zeta.
  split; [|apply firstn_le_length].
  rewrite <- firstn_map. apply NoDup_firstn.
  assert (I2 : badgeInv (fold_left linkBadge links
                                   (fold_left imageBadge (visit ast) ([], [])))).
  { apply fold_left_inv; [intros; now apply linkBadge_inv|].
    apply fold_left_inv; [intros; now apply imageBadge_inv|].
    split; [constructor | intros b []]. }
  destruct (Nat.ltb _ 2); [|exact (proj1 I2)].
  apply (fold_left_inv badgeInv); [intros; now apply techLineBadges_inv | exact I2].
Qed.

Lemma arrayIncludes_In (l : list jstring) (x : jstring) :
  arrayIncludes l x = true <-> In x l.
Proof. exact (setHas_In l x). Qed.

Lemma pushUnique_NoDup (l : list jstring) (x : jstring) (c : bool) :
  NoDup l -> NoDup (if c && negb (arrayIncludes l x) then l ++ [x] else l).
Proof.
  intros H. destruct c; simpl; [|exact H].
  destruct (arrayIncludes l x) eqn:E; simpl; [exact H|].
  apply NoDup_app; [exact H | repeat constructor; auto |].
  intros a Ha [<- | []]. apply arrayIncludes_In in Ha. congruence.
Qed.

(** What the two passes of [extractTechStack] keep true of the list. *)
Lemma techStack_inv (ast : Root) (stack : list jstring) :
  extractTechStack ast = Some stack ->
  NoDup stack
  /\ forall t, In t stack ->
               In t techKeywords \/ exists value, In (Code (Some t) value) (visit ast).
Proof.
  unfold extractTechStack. cbv zeta.
  set (P := fun l : list jstring =>
              NoDup l
              /\ forall t, In t l ->
                           In t techKeywords
                           \/ exists value, In (Code (Some t) value) (visit ast)).
  assert (P1 : P (fold_left
                    (fun techStack node =>
                       if isParagraph node
                       then
                         fold_left
                           (fun techStack keyword =>
                              if includes keyword (toLowerCase (extractTextFromNode node))
                                 && negb (arrayIncludes techStack keyword)
                              then techStack ++ [keyword] else techStack)
                           techKeywords techStack
                       else techStack)
                    (visit ast) [])).
  { apply fold_left_inv; [|split; [constructor | intros t []]].
    intros l node Hl. destruct (isParagraph node); [|exact Hl].
    assert (G : forall ks, (forall k, In k ks -> In k techKeywords) ->
                           forall l0, P l0 ->
                                      P (fold_left
                                           (fun techStack keyword =>
                                              if includes keyword
                                                          (toLowerCase (extractTextFromNode node))
                                                 && negb (arrayIncludes techStack keyword)
                                              then techStack ++ [keyword] else techStack)
                                           ks l0)).
    { induction ks as [|k ks IH]; intros Hks l0 Hl0; simpl; [exact Hl0|].
      apply IH; [intros k' Hk'; apply Hks; now right|].
      destruct Hl0 as [Hnd Hsrc]. split; [now apply pushUnique_NoDup|].
      intros t Ht. destruct (_ && _); [|now apply Hsrc].
      apply in_app_or in Ht. destruct Ht as [Ht | [<- | []]]; [now apply Hsrc|].
      left. apply Hks. now left. }
    apply G; [auto | exact Hl]. }
  match goal with
  | |- (if Nat.ltb 0 (length ?l) then _ else _) = _ -> _ => set (found := l)
  end.
  assert (P2 : P found).
  { subst found.
    assert (G : forall nodes, (forall n, In n nodes -> In n (visit ast)) ->
                              forall l0, P l0 ->
                                         P (fold_left
                                              (fun techStack node =>
                                                 match node with
                                                 | Code (Some lang) _ =>
                                                     if truthy lang
                                                        && negb (arrayIncludes techStack lang)
                                                     then techStack ++ [lang] else techStack
                                                 | _ => techStack
                                                 end)
                                              nodes l0)).
    { induction nodes as [|n nodes IH]; intros Hn l0 Hl0; simpl; [exact Hl0|].
      apply IH; [intros n' Hn'; apply Hn; now right|].
      destruct n as [| | [lang|] value | |]; try exact Hl0.
      destruct Hl0 as [Hnd Hsrc]. split; [now apply pushUnique_NoDup|].
      intros t Ht. destruct (_ && _); [|now apply Hsrc].
      apply in_app_or in Ht. destruct Ht as [Ht | [<- | []]]; [now apply Hsrc|].
      right. exists value. apply Hn. now left. }
    apply G; [auto | exact P1]. }
  clearbody found. clear P1.
  destruct (Nat.ltb 0 _); [|discriminate].
  intros H. assert (E : stack = firstn 8 found) by congruence. subst stack. clear H.
  destruct P2 as [Hnd Hsrc]. split; [now apply NoDup_firstn|].
  intros t Ht. apply In_firstn in Ht. now apply Hsrc.
Qed.

(** The technology list has no duplicate, and every entry is a name of the
    fixed allowlist or the language tag of a code block of the document. *)
Theorem tech_stack_has_no_duplicates :
  forall (ast : Root) (stack : list jstring),
    extractTechStack ast = Some stack ->
    NoDup stack
    /\ length stack <= 8
    /\ forall t, In t stack ->
                 In t techKeywords \/ exists value, In (Code (Some t) value) (visit ast).
Proof.
  intros ast stack H. destruct (techStack_inv ast H) as [Hnd Hsrc].
  repeat split; auto.
  unfold extractTechStack in H. cbv zeta in H.
  match type of H with
  | (if Nat.ltb 0 (length ?l) then _ else _) = _ => generalize dependent l
  end.
  intros found H. destruct (Nat.ltb 0 _); [|discriminate].
  assert (E : stack = firstn 8 found) by congruence. subst stack.
  apply firstn_le_length.
Qed.

Lemma tech_stack_has_no_duplicates_witness :
  NoDup [lit "react"; lit "go"; lit "bash"]
  /\ length [lit "react"; lit "go"; lit "bash"] <= 8
  /\ forall t, In t [lit "react"; lit "go"; lit "bash"] ->
               In t techKeywords
               \/ exists value,
                    In (Code (Some t) value)
                       (visit [paragraph "Uses React and Django"; paragraph "React again";
                               Code (Some (lit "bash")) (lit "go build");
                               Code (Some (lit "bash")) (lit "go test")]).
Proof.
  apply tech_stack_has_no_duplicates. vm_compute. reflexivity.
Defined.




Lemma fold_left_inv_In {A B : Type} (P : A -> Prop) (f : A -> B -> A) (l : list B) :
  (forall a b, In b l -> P a -> P (f a b)) -> forall a, P a -> P (fold_left f l a).
Proof.
  induction l as [|b l IH]; intros H a Ha; simpl; [exact Ha|].
  apply IH; [intros a' b' Hb'; apply H; now right|].
  apply H; [now left | exact Ha].
Qed.

(** What the fallback of the Feature Extractor collects: at most five
    features, each the trimmed text of a bold span inside a paragraph. *)
Lemma boldFeatures_spec (ast : Root) :
  length (boldFeatures ast) <= 5
  /\ Forall
       (fun f =>
          boldFeature f
          /\ exists p strongNode,
               In p (visit ast) /\ isParagraph p = true
               /\ In strongNode (preorder p) /\ isStrong strongNode = true
               /\ featureTitle f = trim (extractTextFromNode strongNode))
       (boldFeatures ast).
Proof.
  unfold boldFeatures.
  set (R := fun f =>
              boldFeature f
              /\ exists p strongNode,
                   In p (visit ast) /\ isParagraph p = true
                   /\ In strongNode (preorder p) /\ isStrong strongNode = true
                   /\ featureTitle f = trim (extractTextFromNode strongNode)).
  apply (fold_left_inv_In (fun l => length l <= 5 /\ Forall R l));
    [|split; [simpl; lia | constructor]].
  intros features node Hnode Inv.
  destruct (isParagraph node) eqn:Hp; simpl; [|exact Inv].
  destruct (Nat.ltb (length features) 5); [|exact Inv].
  apply (fold_left_inv_In (fun l => length l <= 5 /\ Forall R l)); [|exact Inv].
  intros l strongNode Hin [Hlen Hall].
  destruct (isStrong strongNode) eqn:Hs; [|now split].
  cbv zeta. destruct (truthy _) eqn:Ht; simpl; [|now split].
  destruct (Nat.ltb (length l) 5) eqn:Hl; [|now split].
  apply Nat.ltb_lt in Hl. split; [rewrite length_app; simpl; lia|].
  apply Forall_app. split; [exact Hall|]. constructor; [|constructor].
  split.
  - repeat split; simpl; auto using trim_trimmed.
    intros E. rewrite E in Ht. discriminate.
  - exists node, strongNode. auto.
Qed.

(** Without a feature list, the features are the first five non-blank bold
    spans of the paragraphs: a title without white space at its ends, no
    description and no icon. *)
Theorem features_fall_back_to_bold_spans :
  forall ast : Root,
    findFeatureList ast = None ->
    extractFeatures ast = boldFeatures ast
    /\ length (extractFeatures ast) <= 5
    /\ Forall
         (fun f =>
            boldFeature f
            /\ exists p strongNode,
                 In p (visit ast) /\ isParagraph p = true
                 /\ In strongNode (preorder p) /\ isStrong strongNode = true
                 /\ featureTitle f = trim (extractTextFromNode strongNode))
         (extractFeatures ast).
Proof.
  intros ast Hnone. destruct (boldFeatures_spec ast) as [Hlen Hall].
  assert (E : extractFeatures ast = boldFeatures ast).
  { unfold extractFeatures. rewrite Hnone. cbv zeta iota.
    apply firstn_all2. lia. }
  rewrite E. auto.
Qed.

Lemma features_fall_back_to_bold_spans_witness :
  extractFeatures boldDocument = boldFeatures boldDocument
  /\ length (extractFeatures boldDocument) <= 5
  /\ Forall
       (fun f =>
          boldFeature f
          /\ exists p strongNode,
               In p (visit boldDocument) /\ isParagraph p = true
               /\ In strongNode (preorder p) /\ isStrong strongNode = true
               /\ featureTitle f = trim (extractTextFromNode strongNode))
       (extractFeatures boldDocument).
Proof.
  apply features_fall_back_to_bold_spans. reflexivity.
Defined.

(* ================================================================== *)
(** ** Further properties: the dash pattern of feature items *)
(* ================================================================== *)

Lemma takeWhile_dropWhile (p : char16 -> bool) (s : jstring) :
  s = takeWhile p s ++ dropWhile p s.
Proof.
  induction s as [|c s IH]; simpl; [reflexivity|].
  destruct (p c); simpl; [now rewrite <- IH | reflexivity].
Qed.

Lemma firstn_takeWhile (p : char16 -> bool) (s : jstring) (k : nat) :
  k <= length (takeWhile p s) -> forallb p (firstn k s) = true.
Proof.
  revert k. induction s as [|c s IH]; intros [|k] H; simpl; try reflexivity.
  simpl in H. destruct (p c) eqn:E; simpl in H; [|lia].
  simpl. apply IH. lia.
Qed.

Lemma dashTail_spec (m : nat) (r g2 : jstring) :
  dashTail m r = Some g2 ->
  exists k, k <= m /\ g2 = skipn k r /\ g2 <> [] /\ noLineTerminator g2 = true.
Proof.
  assert (Here : forall k,
             truthy (skipn k r) && noLineTerminator (skipn k r) = true ->
             Some (skipn k r) = Some g2 ->
             exists k', k' <= k /\ g2 = skipn k' r /\ g2 <> []
                        /\ noLineTerminator g2 = true).
  { intros k E H. apply andb_true_iff in E. destruct E as [E1 E2].
    assert (Eg : g2 = skipn k r) by congruence.
    exists k. rewrite Eg. repeat split; auto.
    intros Z. rewrite Z in E1. discriminate. }
  induction m as [|m IH]; cbn [dashTail]; cbv zeta.
  - destruct (truthy (skipn 0 r) && noLineTerminator (skipn 0 r)) eqn:E;
      [now apply Here | discriminate].
  - destruct (truthy (skipn (S m) r) && noLineTerminator (skipn (S m) r)) eqn:E;
      [now apply Here|].
    intros H. destruct (IH H) as [k [Hk Hrest]]. exists k. split; [lia | exact Hrest].
Qed.

Lemma noLineTerminator_snoc (s : jstring) (c : char16) :
  noLineTerminator s = true -> isLineTerminator c = false ->
  noLineTerminator (s ++ [c]) = true.
Proof.
  unfold noLineTerminator. intros Hs Hc. rewrite forallb_app, Hs. simpl. now rewrite Hc.
Qed.

Lemma dashMatchFrom_spec (s : jstring) :
  forall g1 a b,
    g1 <> [] -> noLineTerminator (rev g1) = true ->
    dashMatchFrom g1 s = Some (a, b) ->
    exists ws1 d ws2,
      rev g1 ++ s = a ++ ws1 ++ d :: ws2 ++ b
      /\ isDash d = true
      /\ forallb isWhite ws1 = true /\ forallb isWhite ws2 = true
      /\ a <> [] /\ b <> []
      /\ noLineTerminator a = true /\ noLineTerminator b = true.
Proof.
  induction s as [|c s IH]; intros g1 a b Hne Hlt.
  - simpl. discriminate.
  - cbn [dashMatchFrom]. cbv zeta.
    destruct (dropWhile isWhite (c :: s)) as [|d r] eqn:Hdrop.
    + destruct (isLineTerminator c) eqn:Hc; [discriminate|].
      intros H. apply IH in H.
      * destruct H as [ws1 [d [ws2 [E Hrest]]]]. exists ws1, d, ws2.
        split; [|exact Hrest]. rewrite <- E. simpl. now rewrite <- app_assoc.
      * discriminate.
      * simpl. now apply noLineTerminator_snoc.
    + destruct (isDash d) eqn:Hd.
      * destruct (dashTail (length (takeWhile isWhite r)) r) as [g2|] eqn:Htail.
        -- intros [= <- <-]. apply dashTail_spec in Htail.
           destruct Htail as [k [Hk [Eg2 [Hg2 Hlt2]]]].
           exists (takeWhile isWhite (c :: s)), d, (firstn k r).
           split; [|repeat split; auto using takeWhile_forallb, firstn_takeWhile].
           ++ rewrite Eg2, firstn_skipn, <- Hdrop. f_equal. apply takeWhile_dropWhile.
           ++ intros Z. apply Hne. destruct g1; [reflexivity|].
              simpl in Z. now destruct (rev g1).
        -- destruct (isLineTerminator c) eqn:Hc; [discriminate|].
           intros H. apply IH in H.
           ++ destruct H as [ws1 [d' [ws2 [E Hrest]]]]. exists ws1, d', ws2.
              split; [|exact Hrest]. rewrite <- E. simpl. now rewrite <- app_assoc.
           ++ discriminate.
           ++ simpl. now apply noLineTerminator_snoc.
      * destruct (isLineTerminator c) eqn:Hc; [discriminate|].
        intros H. apply IH in H.
        -- destruct H as [ws1 [d' [ws2 [E Hrest]]]]. exists ws1, d', ws2.
           split; [|exact Hrest]. rewrite <- E. simpl. now rewrite <- app_assoc.
        -- discriminate.
        -- simpl. now apply noLineTerminator_snoc.
Qed.

(** When the dash pattern matches a feature item, its two groups are the
    ends of the item: the item is the first group, white space, a dash
    character, white space and the second group; both groups are non-empty
    and hold no line terminator. *)
Theorem dash_split_reassembles :
  forall s g1 g2 : jstring,
    dashMatch s = Some (g1, g2) ->
    exists ws1 d ws2,
      s = g1 ++ ws1 ++ d :: ws2 ++ g2
      /\ isDash d = true
      /\ forallb isWhite ws1 = true /\ forallb isWhite ws2 = true
      /\ g1 <> [] /\ g2 <> []
      /\ noLineTerminator g1 = true /\ noLineTerminator g2 = true.
Proof.
  intros [|c s] g1 g2; cbn [dashMatch]; [discriminate|].
  destruct (isLineTerminator c) eqn:Hc; [discriminate|].
  intros H. apply dashMatchFrom_spec in H.
  - exact H.
  - discriminate.
  - unfold noLineTerminator. simpl. now rewrite Hc.
Qed.

Lemma dash_split_reassembles_witness :
  exists ws1 d ws2,
    lit "Fast  - very - quick" = lit "Fast" ++ ws1 ++ d :: ws2 ++ lit "very - quick"
    /\ isDash d = true
    /\ forallb isWhite ws1 = true /\ forallb isWhite ws2 = true
    /\ lit "Fast" <> [] /\ lit "very - quick" <> []
    /\ noLineTerminator (lit "Fast") = true
    /\ noLineTerminator (lit "very - quick") = true.
Proof.
  apply dash_split_reassembles. vm_compute. reflexivity.
Defined.

(* ================================================================== *)
(** ** Further properties: the layout groups of the page component *)
(* ================================================================== *)

Lemma indexed_fst {A : Type} (l : list A) :
  List.map fst (indexed l) = seq 0 (length l).
Proof.
  unfold indexed. generalize 0. induction l as [|x l IH]; intros n; simpl; [reflexivity|].
  now rewrite IH.
Qed.

Lemma NoDup_map_fst_inj {A B : Type} (l : list (A * B)) (a b : A * B) :
  NoDup (List.map fst l) -> In a l -> In b l -> fst a = fst b -> a = b.
Proof.
  induction l as [|x l IH]; intros Hnd Ha Hb E; [destruct Ha|].
  simpl in Hnd. inversion Hnd as [|? ? Hx Hl]; subst.
  destruct Ha as [-> | Ha], Hb as [-> | Hb]; auto.
  - exfalso. apply Hx. rewrite E. now apply in_map.
  - exfalso. apply Hx. rewrite <- E. now apply in_map.
Qed.

Lemma sameRef_indexed {A : Type} (l : list A) (a : nat * A) (group : list (nat * A)) :
  In a (indexed l) -> (forall b, In b group -> In b (indexed l)) ->
  existsb (sameRef a) group = true <-> In a group.
Proof.
  intros Ha Hsub. rewrite existsb_exists. split.
  - intros [b [Hb E]]. unfold sameRef in E. apply Nat.eqb_eq in E.
    assert (a = b) as ->; [|exact Hb].
    apply (@NoDup_map_fst_inj _ _ (indexed l)); auto.
    rewrite indexed_fst. apply seq_NoDup.
  - intros H. exists a. split; [exact H|]. unfold sameRef. apply Nat.eqb_refl.
Qed.

Lemma filterR_spec {A : Type} (p : A -> Result bool) (l kept : list A) :
  filterR p l = Ok kept ->
  (forall x, In x l -> exists b, p x = Ok b)
  /\ forall x, In x kept <-> In x l /\ p x = Ok true.
Proof.
  revert kept. induction l as [|x l IH]; intros kept; simpl.
  - intros [= <-]. split; [intros x [] | intros x; simpl; tauto].
  - destruct (p x) as [b|e] eqn:Hp; simpl; [|discriminate].
    destruct (filterR p l) as [rest|e] eqn:Hrest; simpl; [|discriminate].
    intros [= <-]. destruct (IH rest eq_refl) as [Htot Hin]. split.
    + intros y [<- | Hy]; [now exists b | now apply Htot].
    + intros y. destruct b; simpl; rewrite ?Hin; split.
      * intros [<- | [H1 H2]]; auto.
      * intros [[<- | H1] H2]; auto.
      * intros [H1 H2]; auto.
      * intros [[<- | H1] H2]; [congruence | auto].
Qed.

Lemma filterR_total {A : Type} (p : A -> Result bool) (l : list A) :
  (forall x, In x l -> exists b, p x = Ok b) -> exists kept, filterR p l = Ok kept.
Proof.
  induction l as [|x l IH]; intros H; simpl; [now exists []|].
  destruct (H x (or_introl eq_refl)) as [b ->]. simpl.
  destruct IH as [rest ->]; [intros y Hy; apply H; now right|]. simpl. eauto.
Qed.

Lemma filterR_throws {A : Type} (p : A -> Result bool) (l : list A) (x : A) (e : Error) :
  (forall y e', p y = Throw e' -> e' = e) ->
  In x l -> p x = Throw e -> filterR p l = Throw e.
Proof.
  intros Hall. induction l as [|y l IH]; intros Hin Hx; [destruct Hin|].
  simpl. destruct (p y) as [b|e'] eqn:Hy; simpl.
  - destruct Hin as [-> | Hin]; [congruence|].
    rewrite (IH Hin Hx). reflexivity.
  - now rewrite (Hall y e' Hy).
Qed.

Lemma inGroup_total (keys : list jstring) (s : Section) :
  stringTitle s -> exists b, inGroup keys s = Ok b.
Proof.
  intros [t Ht]. unfold inGroup. apply someR_total.
  apply Forall_forall. intros key _.
  destruct (includes key _); [now exists true|].
  unfold titleLower. rewrite Ht. simpl. eauto.
Qed.

Lemma inGroup_error (keys : list jstring) (s : Section) (e : Error) :
  inGroup keys s = Throw e -> e = TypeError.
Proof.
  unfold inGroup. destruct (titleLower s) as [t|e'] eqn:Ht.
  - induction keys as [|key keys IH]; simpl; [discriminate|].
    destruct (includes key _); simpl; [discriminate|].
    destruct (includes key t); [discriminate | exact IH].
  - assert (e' = TypeError) as ->
        by (unfold titleLower in Ht; destruct (title s); congruence).
    induction keys as [|key keys IH]; simpl; [discriminate|].
    destruct (includes key _); simpl; [discriminate | congruence].
Qed.

Lemma In_indexed {A : Type} (l : list A) (x : A) :
  In x l -> exists i, In (i, x) (indexed l).
Proof.
  unfold indexed. generalize 0. induction l as [|y l IH]; intros n []; simpl.
  - subst. exists n. now left.
  - destruct (IH (S n) H) as [i Hi]. exists i. now right.
Qed.

Lemma In_indexed_snd {A : Type} (l : list A) (a : nat * A) :
  In a (indexed l) -> In (snd a) l.
Proof.
  unfold indexed. destruct a as [i x]. intros H. now apply in_combine_r in H.
Qed.

(** Every section of the model is rendered: it is in one of the three
    groups; the third group holds exactly the sections of neither of the
    other two, and no group holds anything but sections of the model. *)
Theorem layout_covers_every_section :
  forall (sections : list Section) (layout : Layout),
    categorize sections = Ok layout ->
    (forall s, In s (indexed sections) <->
               In s (primarySections layout) \/ In s (secondarySections layout)
               \/ In s (tertiarySections layout))
    /\ (forall s, In s (tertiarySections layout) ->
                  ~ In s (primarySections layout) /\ ~ In s (secondarySections layout))
    /\ length sections
       <= length (primarySections layout) + length (secondarySections layout)
          + length (tertiarySections layout).
Proof.
  intros sections layout. unfold categorize.
  destruct (filterR (fun s => inGroup primaryKeys (snd s)) (indexed sections))
    as [primary|e] eqn:Hp; simpl; [|discriminate].
  destruct (filterR (fun s => inGroup secondaryKeys (snd s)) (indexed sections))
    as [secondary|e] eqn:Hs; simpl; [|discriminate].
  intros H. injection H as H. subst layout.
  cbn [primarySections secondarySections tertiarySections].
  destruct (filterR_spec _ _ Hp) as [_ Hprim].
  destruct (filterR_spec _ _ Hs) as [_ Hsec].
  assert (Subp : forall b, In b primary -> In b (indexed sections))
    by (intros b Hb; now apply Hprim in Hb).
  assert (Subs : forall b, In b secondary -> In b (indexed sections))
    by (intros b Hb; now apply Hsec in Hb).
  assert (Cover : forall s, In s (indexed sections) <->
                            In s primary \/ In s secondary
                            \/ In s (filter
                                       (fun s => negb (existsb (sameRef s) primary)
                                                 && negb (existsb (sameRef s) secondary))
                                       (indexed sections))).
  { intros s. rewrite filter_In. split.
    - intros Hin.
      destruct (existsb (sameRef s) primary) eqn:E1;
        [left; now apply (sameRef_indexed sections s primary Hin Subp)|].
      destruct (existsb (sameRef s) secondary) eqn:E2;
        [right; left; now apply (sameRef_indexed sections s secondary Hin Subs)|].
      right. right. auto.
    - intros [H | [H | [H _]]]; auto. }
  split; [exact Cover|]. split.
  - intros s Hs'. apply filter_In in Hs'. destruct Hs' as [Hin Hb].
    apply andb_true_iff in Hb. destruct Hb as [B1 B2].
    apply negb_true_iff in B1, B2. split; intros H.
    + apply (sameRef_indexed sections s primary Hin Subp) in H. congruence.
    + apply (sameRef_indexed sections s secondary Hin Subs) in H. congruence.
  - rewrite <- !length_app.
    replace (length sections) with (length (indexed sections))
      by (rewrite <- (length_map fst), indexed_fst; apply length_seq).
    apply NoDup_incl_length.
    + apply (NoDup_map_inv fst). rewrite indexed_fst. apply seq_NoDup.
    + intros s Hin. apply Cover in Hin. rewrite !in_app_iff. tauto.
Qed.

Lemma layout_covers_every_section_witness :
  exists layout,
    categorize installAndConfigure = Ok layout
    /\ (forall s, In s (indexed installAndConfigure) <->
                  In s (primarySections layout) \/ In s (secondarySections layout)
                  \/ In s (tertiarySections layout))
    /\ (forall s, In s (tertiarySections layout) ->
                  ~ In s (primarySections layout) /\ ~ In s (secondarySections layout))
    /\ length installAndConfigure
       <= length (primarySections layout) + length (secondarySections layout)
          + length (tertiarySections layout).
Proof.
  destruct (categorize installAndConfigure) as [layout|] eqn:E;
    [|vm_compute in E; discriminate].
  exists layout. split; [reflexivity|].
  exact (layout_covers_every_section installAndConfigure E).
Defined.

(** The groups are built for every model whose section titles are strings. *)
Theorem layout_total_on_string_titles :
  forall sections : list Section,
    Forall stringTitle sections -> exists layout, categorize sections = Ok layout.
Proof.
  intros sections Hall. unfold categorize.
  assert (T : forall keys, exists kept,
               filterR (fun s => inGroup keys (snd s)) (indexed sections) = Ok kept).
  { intros keys. apply filterR_total. intros x Hx. apply inGroup_total.
    apply In_indexed_snd in Hx. revert Hx. now apply Forall_forall. }
  destruct (T primaryKeys) as [primary ->]. simpl.
  destruct (T secondaryKeys) as [secondary ->]. simpl. eauto.
Qed.

Lemma layout_total_on_string_titles_witness :
  exists layout, categorize installAndConfigure = Ok layout.
Proof.
  apply layout_total_on_string_titles.
  repeat constructor; eexists; reflexivity.
Defined.

(** A section whose title is not a string makes the page component throw
    a TypeError, unless its id contains the first key of the first group:
    so does a model that the engine returned without an error. *)
Theorem layout_fails_on_inherited_title :
  forall (sections : list Section) (s : Section) (property : jstring),
    In s sections ->
    title s = VInherited property ->
    includes (lit "how-it-works") (toLowerCase (id s)) = false ->
    categorize sections = Throw TypeError.
Proof.
  intros sections s property Hin Ht Hid. unfold categorize.
  destruct (In_indexed sections s Hin) as [i Hi].
  rewrite (@filterR_throws _ (fun s => inGroup primaryKeys (snd s))
                           (indexed sections) (i, s) TypeError).
  - reflexivity.
  - intros y e' H. now apply inGroup_error in H.
  - exact Hi.
  - unfold inGroup, primaryKeys. cbn [someR snd]. rewrite Hid.
    unfold titleLower. rewrite Ht. reflexivity.
Qed.

Lemma layout_fails_on_inherited_title_witness :
  exists r,
    parseReadme rejectingURL anchoredDemoDocument = Ok r
    /\ categorize (pmSections r) = Throw TypeError.
Proof.
  eexists. split; [vm_compute; reflexivity|].
  eapply layout_fails_on_inherited_title;
    [left; reflexivity | reflexivity | vm_compute; reflexivity].
Defined.

(* ================================================================== *)
(** ** Further properties: the downloaded file *)
(* ================================================================== *)

Lemma replaceWhiteRuns_no_white (r s : jstring) (inRun : bool) :
  forallb (fun c => negb (isWhite c)) r = true ->
  forallb (fun c => negb (isWhite c)) (replaceWhiteRuns r inRun s) = true.
Proof.
  intros Hr. revert inRun. induction s as [|c s IH]; intros inRun; simpl; [reflexivity|].
  destruct (isWhite c) eqn:E.
  - rewrite forallb_app, IH, andb_true_r. now destruct inRun.
  - simpl. now rewrite E, IH.
Qed.

(** The name of the downloaded file holds no white space, whatever the
    title is: every run of white space of the title has become one dash. *)
Theorem download_name_has_no_white_space :
  forall title : jstring,
    forallb (fun c => negb (isWhite c)) (downloadName title) = true.
Proof.
  intros title. unfold downloadName.
  rewrite forallb_app, replaceWhiteRuns_no_white by reflexivity. reflexivity.
Qed.
